(** * StreamingService: a shallow embedding of the streaming client

    The service of [frontend/src/services/streaming.js] delivers a chat
    response to three caller callbacks over one of two transports (a
    [fetch] body read chunk by chunk, or a WebSocket), keeps a bounded
    trace of the decoded events and reconnects a dropped WebSocket with an
    exponential backoff.

    Conventions of the embedding.
    - JavaScript text is a [string]; the service only splits it on LF,
      tests the ASCII prefix ["data: "] and drops that prefix.
    - What the host provides is an input of the model: the outcome of
      [fetch], the chunks the reader yields, the frames and events of the
      socket, the readings of the clock, and [JSON.parse].
    - What the service does to the outside is an [Effect]: a call of one of
      the caller's callbacks, a console line, a timer, a socket operation.
      Every operation maps a [World] to a [World] and the effects it
      produced, in order.  Callbacks are taken not to throw. *)

From Stdlib Require Import String Ascii List ZArith Lia Bool Arith.
From Stdlib Require Import DecimalString.
Import ListNotations.

Local Open Scope string_scope.
Local Open Scope list_scope.

(** ** Text *)

Module Text.

(** The line feed the chunk is split on: ['\n']. *)
Definition LF : ascii := "010"%char.

(** [s.split('\n')]: the pieces between line feeds; never empty, and a
    text that ends in a line feed has an empty last piece. *)
Fixpoint split_lines (s : string) : list string :=
  match s with
  | EmptyString => [EmptyString]
  | String c rest =>
      if Ascii.eqb c LF then EmptyString :: split_lines rest
      else match split_lines rest with
           | l :: ls => String c l :: ls
           | [] => [String c EmptyString]
           end
  end.

(** [s.substring(k)] for [0 <= k]: the text without its first [k]
    characters (empty when [s] is shorter). *)
Fixpoint drop (k : nat) (s : string) : string :=
  match k, s with
  | O, _ => s
  | S _, EmptyString => EmptyString
  | S k', String _ rest => drop k' rest
  end.

(** [line.startsWith(p)]. *)
Definition startsWith (p line : string) : bool := String.prefix p line.


(** A line holds no line feed. *)
Fixpoint no_LF (s : string) : bool :=
  match s with
  | EmptyString => true
  | String c rest => negb (Ascii.eqb c LF) && no_LF rest
  end.

(** The text of a group of lines, each followed by a line feed. *)
Fixpoint frame (ls : list string) : string :=
  match ls with
  | [] => EmptyString
  | l :: rest => l ++ String LF (frame rest)
  end.

(** The text of a body: its chunks one after the other. *)
Fixpoint body_text (chunks : list string) : string :=
  match chunks with
  | [] => EmptyString
  | c :: rest => c ++ body_text rest
  end.

(** The text ends in a line feed. *)
Fixpoint ends_LF (s : string) : bool :=
  match s with
  | EmptyString => false
  | String c EmptyString => Ascii.eqb c LF
  | String _ rest => ends_LF rest
  end.

(** A chunk cut on a line boundary: empty, or ending in a line feed. *)
Definition line_aligned (s : string) : bool :=
  match s with
  | EmptyString => true
  | _ => ends_LF s
  end.

(** A number in a template literal: [`${n}`] for an integer [n]. *)
Definition of_Z (n : Z) : string := NilZero.string_of_int (Z.to_int n).

End Text.

(** ** JavaScript values *)

(** The values [JSON.parse] returns, and [undefined] for a missing
    property.  A number is kept as the text it was read from: the service
    never computes with a decoded number.  An object is the list of its own
    properties. *)
#[warnings="-register-all"] Inductive JSValue : Type :=
| JUndefined
| JNull
| JBool (b : bool)
| JNum (lexeme : string)
| JStr (s : string)
| JArr (elements : list JSValue)
| JObj (properties : list (string * JSValue)).

Module JS.

(** The own property [k] of an object, [undefined] when absent. *)
Fixpoint lookup (k : string) (props : list (string * JSValue)) : JSValue :=
  match props with
  | [] => JUndefined
  | (k', v) :: rest => if String.eqb k k' then v else lookup k rest
  end.

(** [v.k] for a name [k] that is neither inherited nor an index nor
    [length] (the service reads [type] and [data]): [None] is the
    [TypeError] of reading a property of [null] or [undefined]; a
    primitive or an array has no such property. *)
Definition get (v : JSValue) (k : string) : option JSValue :=
  match v with
  | JUndefined | JNull => None
  | JObj props => Some (lookup k props)
  | _ => Some JUndefined
  end.

(** [v === 'lit']. *)
Definition is_string (lit : string) (v : JSValue) : bool :=
  match v with
  | JStr s => String.eqb s lit
  | _ => false
  end.

(** [props[k] = v]: an existing property keeps its place. *)
Fixpoint set (k : string) (v : JSValue) (props : list (string * JSValue))
  : list (string * JSValue) :=
  match props with
  | [] => [(k, v)]
  | (k', v') :: rest =>
      if String.eqb k k' then (k', v) :: rest else (k', v') :: set k v rest
  end.

End JS.

(** ** The service and its world *)

(** The three callbacks the caller passes to a start operation. *)
Inductive Callback : Type :=
| OnMessage (fragment : JSValue)
| OnError (message : JSValue)
| OnComplete (final : JSValue).

(** A socket object, named by the order of its construction. *)
Definition WebSocket : Type := nat.

(** An event source object; the type is inhabited although no operation
    of the service builds one. *)
Definition EventSource : Type := nat.

(** What the service does to the outside. *)
Inductive Effect : Type :=
| Call (c : Callback)
| ConsoleLog (line : string)
| ConsoleError (line : string)
| SetTimeout (delay : Z)
| WsSend (sock : WebSocket)
| WsClose (sock : WebSocket)
| EsClose (es : EventSource)
| Uncaught (line : string).

(** A buffered entry: the object [{...data, timestamp}] built by
    [addToBuffer], given by the value it spreads and the clock reading it
    adds. *)
Record BufferedEvent : Type := mkBuffered {
  spread : JSValue;
  timestamp : string
}.

(** The fields of a [StreamingService] instance. *)
Record Service : Type := mkService {
  eventSource : option EventSource;
  websocket : option WebSocket;
  reconnectAttempts : Z;
  maxReconnectAttempts : Z;
  buffer : list BufferedEvent;
  maxBufferSize : Z
}.

(** The instance together with what the host counts for it: the clock
    readings taken and the sockets built so far. *)
Record World : Type := mkWorld {
  this : Service;
  clock_reads : nat;
  sockets : nat
}.

(** [constructor()]. *)
Definition constructor : Service :=
  {| eventSource := None;
     websocket := None;
     reconnectAttempts := 0;
     maxReconnectAttempts := 5;
     buffer := [];
     maxBufferSize := 1000 |}.

Definition initial : World :=
  {| this := constructor; clock_reads := 0; sockets := 0 |}.

Definition with_service (w : World) (s : Service) : World :=
  {| this := s; clock_reads := clock_reads w; sockets := sockets w |}.

Definition set_buffer (s : Service) (b : list BufferedEvent) : Service :=
  {| eventSource := eventSource s;
     websocket := websocket s;
     reconnectAttempts := reconnectAttempts s;
     maxReconnectAttempts := maxReconnectAttempts s;
     buffer := b;
     maxBufferSize := maxBufferSize s |}.

Definition set_reconnectAttempts (s : Service) (k : Z) : Service :=
  {| eventSource := eventSource s;
     websocket := websocket s;
     reconnectAttempts := k;
     maxReconnectAttempts := maxReconnectAttempts s;
     buffer := buffer s;
     maxBufferSize := maxBufferSize s |}.

Definition set_websocket (s : Service) (ws : option WebSocket) : Service :=
  {| eventSource := eventSource s;
     websocket := ws;
     reconnectAttempts := reconnectAttempts s;
     maxReconnectAttempts := maxReconnectAttempts s;
     buffer := buffer s;
     maxBufferSize := maxBufferSize s |}.

Definition set_eventSource (s : Service) (es : option EventSource) : Service :=
  {| eventSource := es;
     websocket := websocket s;
     reconnectAttempts := reconnectAttempts s;
     maxReconnectAttempts := maxReconnectAttempts s;
     buffer := buffer s;
     maxBufferSize := maxBufferSize s |}.

(** The callbacks among the effects, in order. *)
Fixpoint calls (es : list Effect) : list Callback :=
  match es with
  | [] => []
  | Call c :: rest => c :: calls rest
  | _ :: rest => calls rest
  end.

(** ** Operations *)

(** Control after a line of the stream: go on reading, or [return]. *)
Inductive Flow : Type := Continue | Return.

(** How the body of a response ends: the reader reports [done], or a read
    (or [getReader]) throws an error with the given message. *)
Inductive Ending : Type :=
| EndOfStream
| ReadFails (message : string).

(** What the host answers to [startSSEStream]: reading the token throws
    (before the [try]); an exception inside the [try] before a response is
    there ([JSON.stringify], [fetch]); or a response with its status, the
    decoded text of the chunks its reader yields, and its ending. *)
Inductive FetchOutcome : Type :=
| StorageThrows
| FetchRejects (message : string)
| Response (status : Z) (chunks : list string) (ending : Ending).

(** What the host answers to [startWebSocketStream]. *)
Inductive SocketOutcome : Type :=
| WsStorageThrows
| WsThrows (message : string)
| WsCreated.

(** Which start operation a reconnect timer re-invokes. *)
Inductive Restart : Type := RestartSSE | RestartWS | NoRestart.

(** [response.ok]. *)
Definition response_ok (status : Z) : bool :=
  (200 <=? status)%Z && (status <=? 299)%Z.

(** [slice(start)] of an array, for an integer [start]. *)
Definition slice_from {A : Type} (start : Z) (l : list A) : list A :=
  let len := Z.of_nat (length l) in
  let k := if (start <? 0)%Z then Z.max (len + start) 0 else Z.min start len in
  skipn (Z.to_nat k) l.

(** [getRecentBuffer(n = 10)]; [None] is a call without argument. *)
Definition getRecentBuffer (n : option Z) (s : Service) : list BufferedEvent :=
  let n := match n with Some k => k | None => 10%Z end in
  slice_from (- n)%Z (buffer s).

(** [close()]. *)
Definition close (w : World) : World * list Effect :=
  let s := this w in
  let '(s1, e1) :=
    match eventSource s with
    | Some es => (set_eventSource s None, [EsClose es])
    | None => (s, [])
    end in
  let '(s2, e2) :=
    match websocket s1 with
    | Some ws => (set_websocket s1 None, [WsClose ws])
    | None => (s1, [])
    end in
  (with_service w (set_reconnectAttempts s2 0), e1 ++ e2).

(** [reconnect(...)] up to the timer it sets.  [Math.pow(2, k)] is [2 ^ k]
    for the exponents [k >= 0], the only ones the counter takes. *)
Definition reconnect (w : World) : World * list Effect :=
  let k := (reconnectAttempts (this w) + 1)%Z in
  let delay := Z.min (1000 * 2 ^ k) 16000 in
  (with_service w (set_reconnectAttempts (this w) k),
   [ConsoleLog ("Reconnecting in " ++ Text.of_Z delay ++ "ms (attempt "
                  ++ Text.of_Z k ++ ")");
    SetTimeout delay]).

(** The body of the timer [reconnect] sets. *)
Definition reconnect_timer (s : Service) : Restart :=
  match eventSource s with
  | Some _ => RestartSSE
  | None =>
      match websocket s with
      | Some _ => RestartWS
      | None => NoRestart
      end
  end.

(** [websocket.onopen]. *)
Definition ws_onopen (w : World) : World * list Effect :=
  let s := set_reconnectAttempts (this w) 0 in
  (with_service w s,
   ConsoleLog "WebSocket connected" ::
   match websocket s with
   | Some ws => [WsSend ws]
   | None => [Uncaught "TypeError"]
   end).

(** [websocket.onerror]. *)
Definition ws_onerror (w : World) : World * list Effect :=
  (w, [ConsoleError "WebSocket error:";
       Call (OnError (JStr "WebSocket connection failed"))]).

(** [websocket.onclose]. *)
Definition ws_onclose (w : World) : World * list Effect :=
  if (reconnectAttempts (this w) <? maxReconnectAttempts (this w))%Z
  then let '(w1, es) := reconnect w in (w1, ConsoleLog "WebSocket closed" :: es)
  else (w, [ConsoleLog "WebSocket closed"]).

(** [startWebSocketStream(...)] up to the handlers it installs. *)
Definition startWebSocketStream (h : SocketOutcome) (w : World)
  : World * list Effect :=
  match h with
  | WsStorageThrows => (w, [Uncaught "localStorage"])
  | WsThrows m =>
      (w, [ConsoleError "Failed to start WebSocket stream:";
           Call (OnError (JStr m))])
  | WsCreated =>
      ({| this := set_websocket (this w) (Some (sockets w));
          clock_reads := clock_reads w;
          sockets := S (sockets w) |}, [])
  end.

(** ** A JSON reader

    The grammar of ECMA-404, which [JSON.parse] accepts: the instance of
    the host's parser the examples are evaluated with.  Text is read as
    UTF-8, so an escape [\uXXXX] is stored as the bytes of its character.
    The statements about the service hold for every parser. *)

Module JSON.

Local Open Scope char_scope.

Definition is_ws (c : ascii) : bool :=
  match c with
  | " " | "009" | "010" | "013" => true
  | _ => false
  end.

Fixpoint skip_ws (s : list ascii) : list ascii :=
  match s with
  | c :: rest => if is_ws c then skip_ws rest else s
  | [] => []
  end.

Definition is_digit (c : ascii) : bool :=
  let n := nat_of_ascii c in (48 <=? n)%nat && (n <=? 57)%nat.

Definition hex_value (c : ascii) : option N :=
  let n := N_of_ascii c in
  if ((48 <=? n) && (n <=? 57))%N then Some (n - 48)%N
  else if ((65 <=? n) && (n <=? 70))%N then Some (n - 55)%N
  else if ((97 <=? n) && (n <=? 102))%N then Some (n - 87)%N
  else None.

Definition hex4 (a b c d : ascii) : option N :=
  match hex_value a, hex_value b, hex_value c, hex_value d with
  | Some x, Some y, Some z, Some t => Some (x * 4096 + y * 256 + z * 16 + t)%N
  | _, _, _, _ => None
  end.

(** The UTF-8 bytes of a code point (a lone surrogate takes the three
    bytes of its value). *)
Definition utf8 (cp : N) : list ascii :=
  let byte n := ascii_of_N n in
  if (cp <? 128)%N then [byte cp]
  else if (cp <? 2048)%N then
    [byte (192 + cp / 64); byte (128 + cp mod 64)]%N
  else if (cp <? 65536)%N then
    [byte (224 + cp / 4096); byte (128 + (cp / 64) mod 64);
     byte (128 + cp mod 64)]%N
  else
    [byte (240 + cp / 262144); byte (128 + (cp / 4096) mod 64);
     byte (128 + (cp / 64) mod 64); byte (128 + cp mod 64)]%N.

Definition is_high (u : N) : bool := ((55296 <=? u) && (u <=? 56319))%N.
Definition is_low (u : N) : bool := ((56320 <=? u) && (u <=? 57343))%N.

Definition text (rev_chars : list ascii) : string :=
  string_of_list_ascii (rev rev_chars).

(** The characters of a string after its opening quote, up to the closing
    one. *)
Fixpoint chars (s acc : list ascii) : option (string * list ascii) :=
  match s with
  | [] => None
  | "034" :: rest => Some (text acc, rest)
  | "\" :: rest =>
      match rest with
      | "034" :: r => chars r ("034" :: acc)
      | "\" :: r => chars r ("\" :: acc)
      | "/" :: r => chars r ("/" :: acc)
      | "b" :: r => chars r ("008" :: acc)
      | "f" :: r => chars r ("012" :: acc)
      | "n" :: r => chars r ("010" :: acc)
      | "r" :: r => chars r ("013" :: acc)
      | "t" :: r => chars r ("009" :: acc)
      | "u" :: a :: b :: c :: d :: r =>
          match hex4 a b c d with
          | None => None
          | Some hi =>
              match r with
              | "\" :: "u" :: a' :: b' :: c' :: d' :: r' =>
                  match hex4 a' b' c' d' with
                  | Some lo =>
                      if is_high hi && is_low lo then
                        chars r'
                          (rev (utf8 (65536 + (hi - 55296) * 1024
                                      + (lo - 56320))%N) ++ acc)
                      else chars r (rev (utf8 hi) ++ acc)
                  | None => chars r (rev (utf8 hi) ++ acc)
                  end
              | _ => chars r (rev (utf8 hi) ++ acc)
              end
          end
      | _ => None
      end
  | c :: rest =>
      if (nat_of_ascii c <? 32)%nat then None else chars rest (c :: acc)
  end.

Fixpoint digits (s acc : list ascii) : list ascii * list ascii :=
  match s with
  | c :: rest => if is_digit c then digits rest (c :: acc) else (acc, s)
  | [] => (acc, [])
  end.

(** At least one digit. *)
Definition digits1 (s acc : list ascii) : option (list ascii * list ascii) :=
  match s with
  | c :: _ => if is_digit c then Some (digits s acc) else None
  | [] => None
  end.

(** A number: an optional minus, an integer part without leading zero,
    an optional fraction, an optional exponent. *)
Definition number (s : list ascii) : option (string * list ascii) :=
  let '(acc, s) :=
    match s with
    | "-" :: r => (["-"], r)
    | _ => ([], s)
    end in
  let int_part :=
    match s with
    | "0" :: r => Some ("0" :: acc, r)
    | _ => digits1 s acc
    end in
  match int_part with
  | None => None
  | Some (acc, s) =>
      let frac :=
        match s with
        | "." :: r => digits1 r ("." :: acc)
        | _ => Some (acc, s)
        end in
      match frac with
      | None => None
      | Some (acc, s) =>
          let exp :=
            match s with
            | "e" :: "+" :: r => digits1 r ("+" :: "e" :: acc)
          | "E" :: "+" :: r => digits1 r ("+" :: "E" :: acc)
          | "e" :: "-" :: r => digits1 r ("-" :: "e" :: acc)
          | "E" :: "-" :: r => digits1 r ("-" :: "E" :: acc)
          | "e" :: r => digits1 r ("e" :: acc)
          | "E" :: r => digits1 r ("E" :: acc)
            | _ => Some (acc, s)
            end in
          match exp with
          | None => None
          | Some (acc, s) => Some (text acc, s)
          end
      end
  end.

(** A value, the elements of an array after its first, the members of an
    object; a repeated member name keeps its last value. *)
Fixpoint value (fuel : nat) (s : list ascii) : option (JSValue * list ascii) :=
  match fuel with
  | O => None
  | S fuel =>
      match skip_ws s with
      | "n" :: "u" :: "l" :: "l" :: r => Some (JNull, r)
      | "t" :: "r" :: "u" :: "e" :: r => Some (JBool true, r)
      | "f" :: "a" :: "l" :: "s" :: "e" :: r => Some (JBool false, r)
      | "034" :: r =>
          match chars r [] with
          | Some (str, r') => Some (JStr str, r')
          | None => None
          end
      | "[" :: r =>
          match skip_ws r with
          | "]" :: r' => Some (JArr [], r')
          | _ => elements fuel r []
          end
      | "{" :: r =>
          match skip_ws r with
          | "}" :: r' => Some (JObj [], r')
          | _ => members fuel r []
          end
      | s' =>
          match number s' with
          | Some (lexeme, r) => Some (JNum lexeme, r)
          | None => None
          end
      end
  end
with elements (fuel : nat) (s : list ascii) (acc : list JSValue)
  : option (JSValue * list ascii) :=
  match fuel with
  | O => None
  | S fuel =>
      match value fuel s with
      | None => None
      | Some (v, r) =>
          match skip_ws r with
          | "," :: r' => elements fuel r' (v :: acc)
          | "]" :: r' => Some (JArr (rev (v :: acc)), r')
          | _ => None
          end
      end
  end
with members (fuel : nat) (s : list ascii) (acc : list (string * JSValue))
  : option (JSValue * list ascii) :=
  match fuel with
  | O => None
  | S fuel =>
      match skip_ws s with
      | "034" :: r =>
          match chars r [] with
          | None => None
          | Some (k, r1) =>
              match skip_ws r1 with
              | ":" :: r2 =>
                  match value fuel r2 with
                  | None => None
                  | Some (v, r3) =>
                      match skip_ws r3 with
                      | "," :: r4 => members fuel r4 (JS.set k v acc)
                      | "}" :: r4 => Some (JObj (JS.set k v acc), r4)
                      | _ => None
                      end
                  end
              | _ => None
              end
          end
      | _ => None
      end
  end.

(** [JSON.parse(s)]: one value between white space, nothing after. *)
Definition parse (s : string) : option JSValue :=
  let cs := list_ascii_of_string s in
  match value (2 * List.length cs + 2) cs with
  | Some (v, r) =>
      match skip_ws r with
      | [] => Some v
      | _ => None
      end
  | None => None
  end.

End JSON.

(** The clock of the examples: its k-th reading is k milliseconds past
    midnight (k below one thousand). *)
Definition example_clock (k : nat) : string :=
  let ms := Text.of_Z (Z.of_nat k) in
  "2024-01-01T00:00:00."
  ++ (if (k <? 10)%nat then "00" else if (k <? 100)%nat then "0" else EmptyString)
  ++ ms ++ "Z".

(** A JSON text written with apostrophes for its double quotes. *)
Fixpoint q (s : string) : string :=
  match s with
  | EmptyString => EmptyString
  | String c rest =>
      String (if Ascii.eqb c "'"%char then "034"%char else c) (q rest)
  end.


(** The JSON of the three events, and the line that carries a JSON. *)
Definition content_json (d : string) : string :=
  q "{'type':'content','data':'" ++ d ++ q "'}".

Definition done_json (d : string) : string :=
  q "{'type':'done','data':'" ++ d ++ q "'}".

Definition error_json (d : string) : string :=
  q "{'type':'error','data':'" ++ d ++ q "'}".

Definition sse (json : string) : string := "data: " ++ json.

(** The scenario of the specification: [Hel], [lo], then [done]. *)
Definition scenario : list string :=
  [sse (content_json "Hel"); sse (content_json "lo"); sse (done_json EmptyString)].

(** A family of distinct events: the k-th carries k marks. *)
Fixpoint marks (k : nat) : string :=
  match k with
  | O => EmptyString
  | S k' => String "x"%char (marks k')
  end.

Definition sample (k : nat) : JSValue :=
  JObj [("type", JStr "content"); ("data", JStr (marks k))].

(** The [+] of the examples, on the operands they use: two strings. *)
Definition example_plus (a b : JSValue) : JSValue :=
  match a, b with
  | JStr x, JStr y => JStr (x ++ y)
  | _, _ => JUndefined
  end.

(** ** The operations that call the host *)

Section Host.

(** [JSON.parse]; [None] is its [SyntaxError]. *)
Variable JSON_parse : string -> option JSValue.

(** [new Date().toISOString()] at the k-th reading of the clock. *)
Variable toISOString : nat -> string.

(** [addToBuffer(data)]. *)
Definition addToBuffer (data : JSValue) (w : World) : World :=
  let s := this w in
  let pushed := buffer s ++ [mkBuffered data (toISOString (clock_reads w))] in
  let kept :=
    if (Z.of_nat (length pushed) >? maxBufferSize s)%Z
    then tl pushed else pushed in
  {| this := set_buffer s kept;
     clock_reads := S (clock_reads w);
     sockets := sockets w |}.

(** The body of the [for] loop of [startSSEStream], one line. *)
Definition sse_line (line : string) (w : World)
  : Flow * World * list Effect :=
  if Text.startsWith "data: " line then
    match JSON_parse (Text.drop 6 line) with
    | None => (Continue, w, [ConsoleError "Error parsing SSE data:"])
    | Some data =>
        let w1 := addToBuffer data w in
        match JS.get data "type", JS.get data "data" with
        | Some t, Some d =>
            if JS.is_string "content" t then
              (Continue, w1, [Call (OnMessage d)])
            else if JS.is_string "done" t then
              (Return, w1, [Call (OnComplete d)])
            else if JS.is_string "error" t then
              (Return, w1, [Call (OnError d)])
            else (Continue, w1, [])
        | _, _ => (Continue, w1, [ConsoleError "Error parsing SSE data:"])
        end
    end
  else (Continue, w, []).

(** The [for] loop over the lines of one chunk. *)
Fixpoint sse_lines (lines : list string) (w : World)
  : Flow * World * list Effect :=
  match lines with
  | [] => (Continue, w, [])
  | line :: rest =>
      match sse_line line w with
      | (Return, w1, es) => (Return, w1, es)
      | (Continue, w1, es) =>
          let '(f, w2, es2) := sse_lines rest w1 in (f, w2, es ++ es2)
      end
  end.

(** The [while (true)] loop over the reads of the body. *)
Fixpoint read_loop (chunks : list string) (ending : Ending) (w : World)
  : World * list Effect :=
  match chunks with
  | [] =>
      match ending with
      | EndOfStream => (w, [Call (OnComplete (JStr EmptyString))])
      | ReadFails m =>
          (w, [ConsoleError "Failed to start SSE stream:";
               Call (OnError (JStr m))])
      end
  | chunk :: rest =>
      match sse_lines (Text.split_lines chunk) w with
      | (Return, w1, es) => (w1, es)
      | (Continue, w1, es) =>
          let '(w2, es2) := read_loop rest ending w1 in (w2, es ++ es2)
      end
  end.

(** [startSSEStream(request, onMessage, onError, onComplete)]. *)
Definition startSSEStream (h : FetchOutcome) (w : World)
  : World * list Effect :=
  match h with
  | StorageThrows => (w, [Uncaught "localStorage"])
  | FetchRejects m =>
      (w, [ConsoleError "Failed to start SSE stream:";
           Call (OnError (JStr m))])
  | Response status chunks ending =>
      if negb (response_ok status) then
        (w, [ConsoleError "Failed to start SSE stream:";
             Call (OnError
                     (JStr ("HTTP error! status: " ++ Text.of_Z status)))])
      else read_loop chunks ending w
  end.

(** [websocket.onmessage]. *)
Definition ws_onmessage (frame : string) (w : World)
  : World * list Effect :=
  match JSON_parse frame with
  | None => (w, [ConsoleError "Error parsing WebSocket message:"])
  | Some data =>
      let w1 := addToBuffer data w in
      match JS.get data "type", JS.get data "data" with
      | Some t, Some d =>
          if JS.is_string "content" t then (w1, [Call (OnMessage d)])
          else if JS.is_string "done" t then
            let '(w2, es) := close w1 in (w2, Call (OnComplete d) :: es)
          else if JS.is_string "error" t then (w1, [Call (OnError d)])
          else (w1, [])
      | _, _ => (w1, [ConsoleError "Error parsing WebSocket message:"])
      end
  end.

(** The timer of [reconnect] fires; the host answers the start operation
    it re-invokes. *)
Definition timer_fires (f : FetchOutcome) (k : SocketOutcome) (w : World)
  : World * list Effect :=
  match reconnect_timer (this w) with
  | RestartSSE => startSSEStream f w
  | RestartWS => startWebSocketStream k w
  | NoRestart => (w, [])
  end.

(** What can happen to an instance: a method is called, or the host
    delivers an event to a handler the service installed. *)
Inductive Op : Type :=
| OpStartSSE (f : FetchOutcome)
| OpStartWS (k : SocketOutcome)
| OpOpen
| OpMessage (frame : string)
| OpError
| OpClosed
| OpTimer (f : FetchOutcome) (k : SocketOutcome)
| OpAddToBuffer (data : JSValue)
| OpGetRecentBuffer (n : option Z)
| OpClose.

Definition step (o : Op) (w : World) : World * list Effect :=
  match o with
  | OpStartSSE f => startSSEStream f w
  | OpStartWS k => startWebSocketStream k w
  | OpOpen => ws_onopen w
  | OpMessage frame => ws_onmessage frame w
  | OpError => ws_onerror w
  | OpClosed => ws_onclose w
  | OpTimer f k => timer_fires f k w
  | OpAddToBuffer data => (addToBuffer data w, [])
  | OpGetRecentBuffer _ => (w, [])
  | OpClose => close w
  end.

(** A history of the instance, from the given world. *)
Fixpoint run (ops : list Op) (w : World) : World * list Effect :=
  match ops with
  | [] => (w, [])
  | o :: rest =>
      let '(w1, es) := step o w in
      let '(w2, es2) := run rest w1 in
      (w2, es ++ es2)
  end.


(** ** The vocabulary of the statements *)

(** The events of the protocol: [{type, data}] with a text payload. *)
Inductive StreamEvent : Type :=
| Content (data : string)
| Done (data : string)
| Error (data : string).

Definition tag (e : StreamEvent) : string :=
  match e with
  | Content _ => "content"
  | Done _ => "done"
  | Error _ => "error"
  end.

Definition payload (e : StreamEvent) : string :=
  match e with
  | Content d | Done d | Error d => d
  end.

(** The parsed value [v] is the event [e]. *)
Definition decodes (v : JSValue) (e : StreamEvent) : Prop :=
  JS.get v "type" = Some (JStr (tag e)) /\
  JS.get v "data" = Some (JStr (payload e)).

(** A valid line of the stream: the prefix, then the JSON of an event. *)
Definition valid_line (line : string) (e : StreamEvent) : Prop :=
  Text.no_LF line = true /\
  Text.startsWith "data: " line = true /\
  exists v, JSON_parse (Text.drop 6 line) = Some v /\ decodes v e.

(** What the reader does with the line of an event. *)
Definition flow_of (e : StreamEvent) : Flow :=
  match e with
  | Content _ => Continue
  | Done _ | Error _ => Return
  end.

Definition callback_of (e : StreamEvent) : Callback :=
  match e with
  | Content d => OnMessage (JStr d)
  | Done d => OnComplete (JStr d)
  | Error d => OnError (JStr d)
  end.

(** The value has the given [type]. *)
Definition typed (t : string) (v : JSValue) : bool :=
  match JS.get v "type" with
  | Some x => JS.is_string t x
  | None => false
  end.

(** A line that carries a [done] or [error] event. *)
Definition terminal (line : string) : bool :=
  Text.startsWith "data: " line &&
  match JSON_parse (Text.drop 6 line) with
  | Some v => typed "done" v || typed "error" v
  | None => false
  end.




(** The entries [addToBuffer] builds for [events] from the k-th reading
    of the clock on. *)
Fixpoint stamp (k : nat) (events : list JSValue) : list BufferedEvent :=
  match events with
  | [] => []
  | e :: rest => mkBuffered e (toISOString k) :: stamp (S k) rest
  end.

(** [addToBuffer] called on each of [events] in turn. *)
Definition append_all (events : list JSValue) (w : World) : World :=
  fold_left (fun w d => addToBuffer d w) events w.

(** The payloads [onComplete] was called with. *)
Fixpoint completed (cs : list Callback) : list JSValue :=
  match cs with
  | [] => []
  | OnComplete v :: rest => v :: completed rest
  | _ :: rest => completed rest
  end.

(** The payloads [onError] was called with. *)
Fixpoint failed (cs : list Callback) : list JSValue :=
  match cs with
  | [] => []
  | OnError v :: rest => v :: failed rest
  | _ :: rest => failed rest
  end.

(** The payloads [onMessage] was called with. *)
Fixpoint delivered (cs : list Callback) : list JSValue :=
  match cs with
  | [] => []
  | OnMessage v :: rest => v :: delivered rest
  | _ :: rest => delivered rest
  end.

(** The delays of the timers set. *)
Fixpoint timers (es : list Effect) : list Z :=
  match es with
  | [] => []
  | SetTimeout d :: rest => d :: timers rest
  | _ :: rest => timers rest
  end.

(** The backoff of the k-th reconnect attempt. *)
Definition backoff (k : Z) : Z := Z.min (1000 * 2 ^ k) 16000.

(** The fields only the WebSocket operations and [close] assign. *)
Definition session_of (s : Service)
  : option EventSource * option WebSocket * Z * Z * Z :=
  (eventSource s, websocket s, reconnectAttempts s,
   maxReconnectAttempts s, maxBufferSize s).

(** What every history of an instance keeps. *)
Definition invariant (s : Service) : Prop :=
  eventSource s = None /\
  maxReconnectAttempts s = 5%Z /\
  maxBufferSize s = 1000%Z /\
  (0 <= reconnectAttempts s <= 5)%Z /\
  (length (buffer s) <= 1000)%nat.

(** The operations that reset the attempt counter: [onopen], [close()],
    and [onmessage], which calls [close()] on a [done] event. *)
Definition resets (o : Op) : bool :=
  match o with
  | OpOpen | OpClose | OpMessage _ => true
  | _ => false
  end.

(** The close events of a history. *)
Fixpoint closes (ops : list Op) : nat :=
  match ops with
  | [] => 0
  | OpClosed :: rest => S (closes rest)
  | _ :: rest => closes rest
  end.

(** The delays of five reconnect attempts in a row. *)
Definition delays : list Z := [2000; 4000; 8000; 16000; 16000]%Z.

(** The operations on a socket or an event source among the effects. *)
Fixpoint socket_ops (es : list Effect) : list Effect :=
  match es with
  | [] => []
  | WsSend k :: rest => WsSend k :: socket_ops rest
  | WsClose k :: rest => WsClose k :: socket_ops rest
  | EsClose k :: rest => EsClose k :: socket_ops rest
  | _ :: rest => socket_ops rest
  end.

(** A close event, or a reconnect timer that fires. *)
Definition close_or_timer (o : Op) : bool :=
  match o with
  | OpClosed | OpTimer _ _ => true
  | _ => false
  end.

(** ** The chat store and the page that sends a message

    The store of [store/chatStore.js] as far as a stream uses it, and the
    callbacks [handleSend] of [pages/Chat.jsx] passes to the service.  A
    message is an object.  The [+] of the host is a parameter: the store
    applies it to the content of a message and a fragment. *)

Variable plus : JSValue -> JSValue -> JSValue.

Definition Message : Type := list (string * JSValue).

(** The state of [useChatStore]. *)
Record ChatStore : Type := mkChat {
  conversations : JSValue;
  currentConversation : JSValue;
  messages : list Message;
  loading : bool;
  streaming : bool;
  error : JSValue
}.

(** The state the store is created with. *)
Definition chat_initial : ChatStore :=
  {| conversations := JArr [];
     currentConversation := JNull;
     messages := [];
     loading := false;
     streaming := false;
     error := JNull |}.

(** [set({ messages })]. *)
Definition set_messages (c : ChatStore) (ms : list Message) : ChatStore :=
  {| conversations := conversations c;
     currentConversation := currentConversation c;
     messages := ms;
     loading := loading c;
     streaming := streaming c;
     error := error c |}.

(** [set({ loading })]. *)
Definition set_loading (c : ChatStore) (b : bool) : ChatStore :=
  {| conversations := conversations c;
     currentConversation := currentConversation c;
     messages := messages c;
     loading := b;
     streaming := streaming c;
     error := error c |}.

(** [setStreaming(streaming)]. *)
Definition setStreaming (b : bool) (c : ChatStore) : ChatStore :=
  {| conversations := conversations c;
     currentConversation := currentConversation c;
     messages := messages c;
     loading := loading c;
     streaming := b;
     error := error c |}.

(** [clearError()]. *)
Definition clearError (c : ChatStore) : ChatStore :=
  {| conversations := conversations c;
     currentConversation := currentConversation c;
     messages := messages c;
     loading := loading c;
     streaming := streaming c;
     error := JNull |}.

(** [addMessage(message)]. *)
Definition addMessage (m : Message) (c : ChatStore) : ChatStore :=
  set_messages c (messages c ++ [m]).

(** [m.content += content]. *)
Definition append_content (content : JSValue) (m : Message) : Message :=
  JS.set "content" (plus (JS.lookup "content" m) content) m.

(** The copy of the array with [f] applied to its last element. *)
Fixpoint update_last (f : Message -> Message) (ms : list Message)
  : list Message :=
  match ms with
  | [] => []
  | [m] => [f m]
  | m :: rest => m :: update_last f rest
  end.

(** [updateLastMessage(content)]. *)
Definition updateLastMessage (content : JSValue) (c : ChatStore) : ChatStore :=
  match messages c with
  | [] => c
  | ms => set_messages c (update_last (append_content content) ms)
  end.

(** [loadConversations()] up to its request. *)
Definition loadConversations_start (c : ChatStore) : ChatStore :=
  set_loading c true.

(** The page: the store and the service instance it keeps. *)
Record Page : Type := mkPage {
  chat : ChatStore;
  service : World
}.

(** What the page does to the outside: what its service does, a console
    line of its own, a request of the store. *)
Inductive PageEffect : Type :=
| FromService (e : Effect)
| PageConsoleError (line : string)
| ApiGet (path : string).

(** The effects of a service operation, each followed by what the
    callback it calls does.  The callbacks that read the service are
    called last by the operation, so they see its final state. *)
Fixpoint react (cb : Callback -> Page -> Page * list PageEffect)
         (es : list Effect) (p : Page) : Page * list PageEffect :=
  match es with
  | [] => (p, [])
  | e :: rest =>
      let '(p1, out1) :=
        match e with
        | Call c => cb c p
        | _ => (p, [])
        end in
      let '(p2, out2) := react cb rest p1 in
      (p2, FromService e :: out1 ++ out2)
  end.

(** The callbacks [handleSend] passes to [startWebSocketStream]. *)
Definition ws_callback (c : Callback) (p : Page) : Page * list PageEffect :=
  match c with
  | OnMessage chunk =>
      ({| chat := updateLastMessage chunk (chat p); service := service p |}, [])
  | OnError _ =>
      ({| chat := setStreaming false (chat p); service := service p |},
       [PageConsoleError "WebSocket error:"])
  | OnComplete _ =>
      ({| chat := setStreaming false (chat p); service := service p |}, [])
  end.

(** The callbacks [handleSend] passes to [startSSEStream]; the host
    answers the WebSocket start of the second. *)
Definition sse_callback (k : SocketOutcome) (c : Callback) (p : Page)
  : Page * list PageEffect :=
  match c with
  | OnMessage chunk =>
      ({| chat := updateLastMessage chunk (chat p); service := service p |}, [])
  | OnError _ =>
      let '(w1, es) := startWebSocketStream k (service p) in
      let '(p1, out) :=
        react ws_callback es
              {| chat := setStreaming false (chat p); service := w1 |} in
      (p1, PageConsoleError "Streaming error:" :: out)
  | OnComplete _ =>
      ({| chat := loadConversations_start (setStreaming false (chat p));
          service := service p |},
       [ApiGet "/api/conversations/"])
  end.

(** The two messages [handleSend] adds for the text it sends. *)
Definition user_message (text : string) (created_at : string) : Message :=
  [("role", JStr "user"); ("content", JStr text);
   ("created_at", JStr created_at)].

Definition assistant_message (created_at : string) : Message :=
  [("role", JStr "assistant"); ("content", JStr EmptyString);
   ("created_at", JStr created_at)].

(** [handleSend()] from its first [addMessage] on, for the trimmed input
    [text]: two messages, the flag, the SSE stream with its callbacks. *)
Definition handleSend_stream (text : string) (h : FetchOutcome)
           (k : SocketOutcome) (p : Page) : Page * list PageEffect :=
  let w := service p in
  let t1 := toISOString (clock_reads w) in
  let t2 := toISOString (S (clock_reads w)) in
  let c :=
    setStreaming true
      (addMessage (assistant_message t2)
         (addMessage (user_message text t1) (chat p))) in
  let w0 := {| this := this w;
               clock_reads := S (S (clock_reads w));
               sockets := sockets w |} in
  let '(w1, es) := startSSEStream h w0 in
  react (sse_callback k) es {| chat := c; service := w1 |}.

(** An event of the socket, or a timer, delivered to the service of the
    page: the callbacks are those of the WebSocket start. *)
Definition page_event (o : Op) (p : Page) : Page * list PageEffect :=
  let '(w1, es) := step o (service p) in
  react ws_callback es {| chat := chat p; service := w1 |}.

(** The text of fragments put end to end. *)
Fixpoint joined (ds : list string) : string :=
  match ds with
  | [] => EmptyString
  | d :: rest => d ++ joined rest
  end.

(** A valid frame of the socket: the JSON of an event. *)
Definition valid_frame (frame : string) (e : StreamEvent) : Prop :=
  exists v, JSON_parse frame = Some v /\ decodes v e.

(** Events delivered to the page one after the other. *)
Fixpoint page_events (ops : list Op) (p : Page) : Page * list PageEffect :=
  match ops with
  | [] => (p, [])
  | o :: rest =>
      let '(p1, out1) := page_event o p in
      let '(p2, out2) := page_events rest p1 in
      (p2, out1 ++ out2)
  end.

(** The requests of the store among the effects of the page. *)
Fixpoint requests (out : list PageEffect) : list string :=
  match out with
  | [] => []
  | ApiGet path :: rest => path :: requests rest
  | _ :: rest => requests rest
  end.

(** The stream cannot start: [fetch] rejects, or the status is not a
    success. *)
Definition refused (h : FetchOutcome) : bool :=
  match h with
  | StorageThrows => false
  | FetchRejects _ => true
  | Response status _ _ => negb (response_ok status)
  end.


(** ** Text: lines and chunks *)

Lemma split_lines_nonempty (s : string) : Text.split_lines s <> [].
Proof.
  destruct s as [|c s]; simpl; [discriminate|].
  destruct (Ascii.eqb c Text.LF); [discriminate|].
  destruct (Text.split_lines s); discriminate.
Qed.

Lemma split_lines_app_LF (a b : string) :
  Text.split_lines (a ++ String Text.LF b)
  = Text.split_lines a ++ Text.split_lines b.
Proof.
  induction a as [|c a IH]; simpl.
  - reflexivity.
  - destruct (Ascii.eqb c Text.LF).
    + now rewrite IH.
    + rewrite IH. pose proof (split_lines_nonempty a) as Hne.
      destruct (Text.split_lines a); [contradiction|reflexivity].
Qed.

Lemma split_lines_no_LF (s : string) :
  Text.no_LF s = true -> Text.split_lines s = [s].
Proof.
  induction s as [|c s IH]; simpl; [reflexivity|].
  intros H. apply andb_true_iff in H as [Hc Hs].
  apply negb_true_iff in Hc. rewrite Hc, (IH Hs). reflexivity.
Qed.

Lemma split_lines_frame (ls : list string) :
  Forall (fun l => Text.no_LF l = true) ls ->
  Text.split_lines (Text.frame ls) = ls ++ [EmptyString].
Proof.
  induction 1 as [|l ls Hl _ IH]; [reflexivity|].
  cbn [Text.frame].
  rewrite split_lines_app_LF, split_lines_no_LF, IH by assumption.
  reflexivity.
Qed.

Lemma split_lines_pieces (s : string) :
  Forall (fun l => Text.no_LF l = true) (Text.split_lines s).
Proof.
  induction s as [|c s IH]; simpl.
  - repeat constructor.
  - destruct (Ascii.eqb c Text.LF) eqn:Ec.
    + constructor; [reflexivity|exact IH].
    + destruct (Text.split_lines s) as [|l ls].
      * repeat constructor. simpl. now rewrite Ec.
      * inversion IH; subst. constructor; [|assumption].
        simpl. now rewrite Ec.
Qed.


Lemma frame_split_lines (a : string) :
  Text.frame (Text.split_lines a) = (a ++ String Text.LF EmptyString)%string.
Proof.
  induction a as [|c a IH]; simpl; [reflexivity|].
  destruct (Ascii.eqb c Text.LF) eqn:Ec.
  - apply Ascii.eqb_eq in Ec. subst c. simpl. now rewrite IH.
  - pose proof (split_lines_nonempty a) as Hne.
    destruct (Text.split_lines a) as [|l ls]; [contradiction|].
    simpl in *. now rewrite IH.
Qed.

Lemma ends_LF_app (s : string) :
  Text.ends_LF s = true ->
  exists a, s = (a ++ String Text.LF EmptyString)%string.
Proof.
  induction s as [|c s IH]; simpl; [discriminate|].
  destruct s as [|c' s'].
  - intros Ec. apply Ascii.eqb_eq in Ec. subst c. now exists EmptyString.
  - intros H. destruct (IH H) as [a Ha]. exists (String c a).
    simpl. now rewrite <- Ha.
Qed.

Lemma aligned_frame (c : string) :
  Text.line_aligned c = true ->
  exists ls, Forall (fun l => Text.no_LF l = true) ls /\ c = Text.frame ls.
Proof.
  destruct c as [|x c]; intros H.
  - exists []. split; [constructor|reflexivity].
  - apply ends_LF_app in H as [a Ha]. exists (Text.split_lines a).
    split; [apply split_lines_pieces|].
    now rewrite frame_split_lines.
Qed.

Lemma aligned_frames (cs : list string) :
  Forall (fun c => Text.line_aligned c = true) cs ->
  exists groups,
    Forall (Forall (fun l => Text.no_LF l = true)) groups /\
    cs = map Text.frame groups.
Proof.
  induction 1 as [|c cs Hc _ [groups [Hg Hcs]]].
  - exists []. split; [constructor|reflexivity].
  - destruct (aligned_frame c Hc) as [g [Hgl Hcg]].
    exists (g :: groups). split; [now constructor|].
    simpl. now rewrite Hcg, Hcs.
Qed.

Lemma append_assoc (a b c : string) :
  ((a ++ b) ++ c = a ++ (b ++ c))%string.
Proof. induction a; simpl; [reflexivity|now rewrite IHa]. Qed.

Lemma frame_app (l1 l2 : list string) :
  Text.frame (l1 ++ l2) = (Text.frame l1 ++ Text.frame l2)%string.
Proof.
  induction l1 as [|l l1 IH]; simpl; [reflexivity|].
  rewrite IH. now rewrite (append_assoc l (String Text.LF (Text.frame l1))).
Qed.

Lemma body_text_frames (groups : list (list string)) :
  Text.body_text (map Text.frame groups) = Text.frame (concat groups).
Proof.
  induction groups as [|g gs IH]; simpl; [reflexivity|].
  now rewrite frame_app, IH.
Qed.

Lemma frame_injective (l1 l2 : list string) :
  Forall (fun l => Text.no_LF l = true) l1 ->
  Forall (fun l => Text.no_LF l = true) l2 ->
  Text.frame l1 = Text.frame l2 -> l1 = l2.
Proof.
  intros H1 H2 E. apply (f_equal Text.split_lines) in E.
  rewrite !split_lines_frame in E by assumption.
  now apply app_inv_tail in E.
Qed.

(** ** The loops of the SSE reader *)

Lemma sse_line_empty (w : World) :
  sse_line EmptyString w = (Continue, w, []).
Proof. reflexivity. Qed.

Lemma sse_lines_app (l1 l2 : list string) (w : World) :
  sse_lines (l1 ++ l2) w =
  match sse_lines l1 w with
  | (Return, w1, es) => (Return, w1, es)
  | (Continue, w1, es) =>
      let '(f, w2, es2) := sse_lines l2 w1 in (f, w2, es ++ es2)
  end.
Proof.
  revert w. induction l1 as [|l l1 IH]; intros w; simpl.
  - destruct (sse_lines l2 w) as [[f w2] es2]. reflexivity.
  - destruct (sse_line l w) as [[[] w1] es]; [|reflexivity].
    rewrite IH. destruct (sse_lines l1 w1) as [[[] w2] es2]; [|reflexivity].
    destruct (sse_lines l2 w2) as [[f w3] es3]. now rewrite app_assoc.
Qed.

(** A body of framed groups is read as the lines of its groups. *)
Lemma read_loop_frames (groups : list (list string)) (rest : list string)
      (ending : Ending) (w : World) :
  Forall (Forall (fun l => Text.no_LF l = true)) groups ->
  read_loop (map Text.frame groups ++ rest) ending w =
  match sse_lines (concat groups) w with
  | (Return, w1, es) => (w1, es)
  | (Continue, w1, es) =>
      let '(w2, es2) := read_loop rest ending w1 in (w2, es ++ es2)
  end.
Proof.
  intros H. revert w. induction H as [|g gs Hg _ IH]; intros w; simpl.
  - destruct (read_loop rest ending w). reflexivity.
  - rewrite (split_lines_frame g Hg), !sse_lines_app.
    destruct (sse_lines g w) as [[[] w1] es]; [|reflexivity].
    simpl. rewrite IH.
    destruct (sse_lines (concat gs) w1) as [[[] w2] es2].
    + destruct (read_loop rest ending w2) as [w3 es3].
      now rewrite app_nil_r, app_assoc.
    + now rewrite app_nil_r.
Qed.

(** ** Callbacks among effects *)

Lemma calls_app (a b : list Effect) : calls (a ++ b) = calls a ++ calls b.
Proof.
  induction a as [|e a IH]; simpl; [reflexivity|].
  destruct e; simpl; now rewrite IH.
Qed.

Lemma completed_app (a b : list Callback) :
  completed (a ++ b) = completed a ++ completed b.
Proof.
  induction a as [|c a IH]; simpl; [reflexivity|].
  destruct c; simpl; now rewrite IH.
Qed.

Lemma failed_app (a b : list Callback) :
  failed (a ++ b) = failed a ++ failed b.
Proof.
  induction a as [|c a IH]; simpl; [reflexivity|].
  destruct c; simpl; now rewrite IH.
Qed.


Lemma messages_only (ms : list JSValue) :
  completed (map OnMessage ms) = [] /\
  failed (map OnMessage ms) = [] /\
  delivered (map OnMessage ms) = ms.
Proof.
  induction ms as [|m ms [Hc [Hf Hd]]]; simpl; [easy|].
  now rewrite Hc, Hf, Hd.
Qed.

(** ** Valid lines *)

Lemma sse_line_valid (line : string) (e : StreamEvent) (w : World) :
  valid_line line e ->
  exists v,
    JSON_parse (Text.drop 6 line) = Some v /\
    sse_line line w = (flow_of e, addToBuffer v w, [Call (callback_of e)]).
Proof.
  intros (_ & Hp & v & Hv & Ht & Hd). exists v. split; [exact Hv|].
  unfold sse_line. rewrite Hp, Hv, Ht, Hd.
  destruct e; reflexivity.
Qed.

Lemma sse_lines_contents (lines : list string) (ds : list string) (w : World) :
  Forall2 valid_line lines (map Content ds) ->
  exists w1 es,
    sse_lines lines w = (Continue, w1, es) /\
    calls es = map (fun d => OnMessage (JStr d)) ds.
Proof.
  revert lines w. induction ds as [|d ds IH]; intros lines w H.
  - inversion H; subst. now exists w, [].
  - inversion H as [|line e ls es' Hl Hls]; subst. simpl.
    destruct (sse_line_valid line (Content d) w Hl) as (v & _ & ->).
    simpl. destruct (IH ls (addToBuffer v w) Hls) as (w1 & es & -> & Hc).
    exists w1, (Call (OnMessage (JStr d)) :: es). split; [reflexivity|].
    simpl. now rewrite Hc.
Qed.

Lemma sse_lines_done (lines : list string) (ds : list string)
      (final : string) (w : World) :
  Forall2 valid_line lines (map Content ds ++ [Done final]) ->
  exists w1 es,
    sse_lines lines w = (Return, w1, es) /\
    calls es = map (fun d => OnMessage (JStr d)) ds ++ [OnComplete (JStr final)].
Proof.
  intros H. apply Forall2_app_inv_r in H as (l1 & l2 & H1 & H2 & ->).
  inversion H2 as [|line e ls es' Hl Hls]; subst. inversion Hls; subst.
  rewrite sse_lines_app.
  destruct (sse_lines_contents l1 ds w H1) as (w1 & es & -> & Hc).
  simpl. destruct (sse_line_valid line (Done final) w1 Hl) as (v & _ & ->).
  simpl. exists (addToBuffer v w1), (es ++ [Call (OnComplete (JStr final))]).
  split; [reflexivity|]. now rewrite calls_app, Hc.
Qed.

Lemma valid_lines_no_LF (groups : list (list string)) (evs : list StreamEvent) :
  Forall2 valid_line (concat groups) evs ->
  Forall (Forall (fun l => Text.no_LF l = true)) groups.
Proof.
  intros H.
  assert (Hall : Forall (fun l => Text.no_LF l = true) (concat groups)).
  { clear -H. induction H as [|l e ls es Hl _ IH]; constructor; [|exact IH].
    now destruct Hl. }
  clear H. induction groups as [|g gs IH]; [constructor|].
  simpl in Hall. apply Forall_app in Hall as [Hg Hgs].
  constructor; [exact Hg|now apply IH].
Qed.


(** ** A body without terminal event *)

Lemma sse_line_not_terminal (line : string) (w : World) :
  terminal line = false ->
  exists w1 es ms,
    sse_line line w = (Continue, w1, es) /\ calls es = map OnMessage ms.
Proof.
  unfold terminal, sse_line, typed. intros H.
  destruct (Text.startsWith "data: " line); [|now exists w, [], []].
  rewrite andb_true_l in H.
  destruct (JSON_parse (Text.drop 6 line)) as [v|];
    [|now eexists w, _, []].
  destruct (JS.get v "type") as [t|]; [|now eexists _, _, []].
  destruct (JS.get v "data") as [d|]; [|now eexists _, _, []].
  destruct (JS.is_string "content" t); [now eexists _, _, [d]|].
  apply orb_false_iff in H as [-> ->]. now eexists _, _, [].
Qed.

Lemma sse_lines_not_terminal (lines : list string) (w : World) :
  Forall (fun l => terminal l = false) lines ->
  exists w1 es ms,
    sse_lines lines w = (Continue, w1, es) /\ calls es = map OnMessage ms.
Proof.
  intros H. revert w. induction H as [|l ls Hl _ IH]; intros w.
  - now exists w, [], [].
  - simpl. destruct (sse_line_not_terminal l w Hl) as (w1 & es & ms & -> & Hc).
    destruct (IH w1) as (w2 & es2 & ms2 & -> & Hc2).
    exists w2, (es ++ es2), (ms ++ ms2). split; [reflexivity|].
    now rewrite calls_app, Hc, Hc2, map_app.
Qed.

Lemma read_loop_not_terminal (chunks : list string) (w : World) :
  Forall (fun c => Forall (fun l => terminal l = false) (Text.split_lines c))
         chunks ->
  exists ms,
    calls (snd (read_loop chunks EndOfStream w))
    = map OnMessage ms ++ [OnComplete (JStr EmptyString)].
Proof.
  intros H. revert w. induction H as [|c cs Hc _ IH]; intros w.
  - now exists [].
  - simpl. destruct (sse_lines_not_terminal _ w Hc) as (w1 & es & ms & -> & Hm).
    destruct (IH w1) as (ms2 & Hm2).
    destruct (read_loop cs EndOfStream w1) as [w2 es2]. simpl in *.
    exists (ms ++ ms2). now rewrite calls_app, Hm, Hm2, map_app, app_assoc.
Qed.

(** C2. A body whose reads end with the transport's [done] and in which
    no line carried a [done] or [error] event: [onComplete] is called
    exactly once, with the empty string, after the content fragments,
    and [onError] is not called. *)
Theorem sse_implicit_completion :
  forall (chunks : list string) (status : Z) (w : World),
    response_ok status = true ->
    Forall (fun c => Forall (fun l => terminal l = false) (Text.split_lines c))
           chunks ->
    let cs :=
      calls (snd (startSSEStream (Response status chunks EndOfStream) w)) in
    completed cs = [JStr EmptyString]
    /\ failed cs = []
    /\ exists fragments,
         cs = map OnMessage fragments ++ [OnComplete (JStr EmptyString)].
Proof.
  intros chunks status w Hok H cs. subst cs.
  unfold startSSEStream. rewrite Hok. simpl negb. cbv iota.
  destruct (read_loop_not_terminal chunks w H) as (ms & ->).
  rewrite completed_app, failed_app.
  destruct (messages_only ms) as (-> & -> & _).
  repeat split; try reflexivity. now exists ms.
Qed.

(** ** Chunks cut on line boundaries *)

(** C3, amended. Two ways of cutting the same text into chunks, each
    chunk empty or ending in a line feed, are read alike: same world
    (and so same buffer), same effects in the same order. *)
Theorem sse_line_aligned_chunking :
  forall (cs1 cs2 : list string) (status : Z) (ending : Ending) (w : World),
    Forall (fun c => Text.line_aligned c = true) cs1 ->
    Forall (fun c => Text.line_aligned c = true) cs2 ->
    Text.body_text cs1 = Text.body_text cs2 ->
    startSSEStream (Response status cs1 ending) w
    = startSSEStream (Response status cs2 ending) w.
Proof.
  intros cs1 cs2 status ending w H1 H2 E.
  destruct (aligned_frames cs1 H1) as (g1 & Hg1 & ->).
  destruct (aligned_frames cs2 H2) as (g2 & Hg2 & ->).
  rewrite !body_text_frames in E.
  apply frame_injective in E.
  - unfold startSSEStream. destruct (negb (response_ok status)); [reflexivity|].
    rewrite <- (app_nil_r (map Text.frame g1)), <- (app_nil_r (map Text.frame g2)).
    rewrite !read_loop_frames by assumption. now rewrite E.
  - now apply Forall_concat.
  - now apply Forall_concat.
Qed.

(** ** A response that is not a success *)

(** C7. A response whose status is outside 200..299: [onError] is called
    once, with the message that embeds the status; no other callback is
    called, no timer is set, and the world (the buffer with it) is as it
    was. *)
Theorem sse_http_error :
  forall (status : Z) (chunks : list string) (ending : Ending) (w : World),
    response_ok status = false ->
    let '(w', es) := startSSEStream (Response status chunks ending) w in
    w' = w
    /\ calls es
       = [OnError (JStr ("HTTP error! status: " ++ Text.of_Z status))]
    /\ timers es = []
    /\ buffer (this w') = buffer (this w).
Proof.
  intros status chunks ending w H. unfold startSSEStream. rewrite H.
  simpl. auto.
Qed.

(** ** What the operations keep *)

Lemma addToBuffer_session (d : JSValue) (w : World) :
  session_of (this (addToBuffer d w)) = session_of (this w)
  /\ sockets (addToBuffer d w) = sockets w.
Proof. split; reflexivity. Qed.

Lemma length_tl_snoc {A : Type} (l : list A) (x : A) :
  length (tl (l ++ [x])) = length l.
Proof. destruct l; simpl; [reflexivity|]. rewrite length_app. simpl. lia. Qed.

Lemma addToBuffer_bounded (d : JSValue) (w : World) :
  maxBufferSize (this w) = 1000%Z ->
  (length (buffer (this w)) <= 1000)%nat ->
  (length (buffer (this (addToBuffer d w))) <= 1000)%nat.
Proof.
  intros Hm Hl. unfold addToBuffer. simpl. rewrite Hm.
  destruct (Z.gtb_spec (Z.of_nat (length (buffer (this w) ++
    [mkBuffered d (toISOString (clock_reads w))]))) 1000) as [H|H].
  - rewrite length_tl_snoc. exact Hl.
  - lia.
Qed.

Lemma sse_line_keeps (line : string) (w : World) :
  let '(_, w1, es) := sse_line line w in
  session_of (this w1) = session_of (this w)
  /\ sockets w1 = sockets w
  /\ timers es = []
  /\ (maxBufferSize (this w) = 1000%Z ->
      (length (buffer (this w)) <= 1000)%nat ->
      (length (buffer (this w1)) <= 1000)%nat).
Proof.
  unfold sse_line.
  destruct (Text.startsWith "data: " line); [|now repeat split].
  destruct (JSON_parse (Text.drop 6 line)) as [v|]; [|now repeat split].
  pose proof (addToBuffer_bounded v w) as Hb.
  destruct (JS.get v "type") as [t|]; [|now repeat split].
  destruct (JS.get v "data") as [d|]; [|now repeat split].
  destruct (JS.is_string "content" t); [now repeat split|].
  destruct (JS.is_string "done" t); [now repeat split|].
  destruct (JS.is_string "error" t); now repeat split.
Qed.

Lemma timers_app (a b : list Effect) : timers (a ++ b) = timers a ++ timers b.
Proof.
  induction a as [|e a IH]; simpl; [reflexivity|].
  destruct e; simpl; now rewrite IH.
Qed.

Lemma sse_lines_keeps (lines : list string) (w : World) :
  let '(_, w1, es) := sse_lines lines w in
  session_of (this w1) = session_of (this w)
  /\ sockets w1 = sockets w
  /\ timers es = []
  /\ (maxBufferSize (this w) = 1000%Z ->
      (length (buffer (this w)) <= 1000)%nat ->
      (length (buffer (this w1)) <= 1000)%nat).
Proof.
  revert w. induction lines as [|l ls IH]; intros w; simpl.
  - now repeat split.
  - pose proof (sse_line_keeps l w) as H.
    destruct (sse_line l w) as [[[] w1] es]; [|exact H].
    specialize (IH w1). destruct (sse_lines ls w1) as [[f w2] es2].
    destruct H as (Hs & Hk & Ht & Hb), IH as (Hs2 & Hk2 & Ht2 & Hb2).
    repeat split.
    + congruence.
    + congruence.
    + now rewrite timers_app, Ht, Ht2.
    + intros Hm Hl. apply Hb2; [|now apply Hb].
      unfold session_of in Hs. congruence.
Qed.

Lemma read_loop_keeps (chunks : list string) (ending : Ending) (w : World) :
  let '(w1, es) := read_loop chunks ending w in
  session_of (this w1) = session_of (this w)
  /\ sockets w1 = sockets w
  /\ timers es = []
  /\ (maxBufferSize (this w) = 1000%Z ->
      (length (buffer (this w)) <= 1000)%nat ->
      (length (buffer (this w1)) <= 1000)%nat).
Proof.
  revert w. induction chunks as [|c cs IH]; intros w; simpl.
  - destruct ending; now repeat split.
  - pose proof (sse_lines_keeps (Text.split_lines c) w) as H.
    destruct (sse_lines (Text.split_lines c) w) as [[[] w1] es]; [|exact H].
    specialize (IH w1). destruct (read_loop cs ending w1) as [w2 es2].
    destruct H as (Hs & Hk & Ht & Hb), IH as (Hs2 & Hk2 & Ht2 & Hb2).
    repeat split.
    + congruence.
    + congruence.
    + now rewrite timers_app, Ht, Ht2.
    + intros Hm Hl. apply Hb2; [|now apply Hb].
      unfold session_of in Hs. congruence.
Qed.

Lemma startSSEStream_keeps (h : FetchOutcome) (w : World) :
  let '(w1, es) := startSSEStream h w in
  session_of (this w1) = session_of (this w)
  /\ sockets w1 = sockets w
  /\ timers es = []
  /\ (maxBufferSize (this w) = 1000%Z ->
      (length (buffer (this w)) <= 1000)%nat ->
      (length (buffer (this w1)) <= 1000)%nat).
Proof.
  destruct h as [|m|status chunks ending]; simpl; try now repeat split.
  destruct (negb (response_ok status)); [now repeat split|].
  apply read_loop_keeps.
Qed.

Lemma session_invariant (s s' : Service) :
  session_of s' = session_of s ->
  (length (buffer s') <= 1000)%nat ->
  invariant s -> invariant s'.
Proof.
  unfold session_of, invariant. intros E Hl (H1 & H2 & H3 & H4 & _).
  inversion E as [[E1 E2 E3 E4 E5]]. rewrite E1, E3, E4, E5. auto.
Qed.

Lemma startSSEStream_invariant (h : FetchOutcome) (w : World) :
  invariant (this w) -> invariant (this (fst (startSSEStream h w))).
Proof.
  intros H. pose proof (startSSEStream_keeps h w) as K.
  destruct (startSSEStream h w) as [w1 es]. simpl.
  destruct K as (Hs & _ & _ & Hb).
  apply (session_invariant (this w)); [exact Hs| |exact H].
  destruct H as (_ & _ & Hm & _ & Hl). now apply Hb.
Qed.

Lemma close_invariant (w : World) :
  invariant (this w) -> invariant (this (fst (close w))).
Proof.
  unfold close, invariant. intros (H1 & H2 & H3 & H4 & H5).
  rewrite H1. destruct (websocket (this w)); simpl; repeat split; auto; lia.
Qed.

Lemma ws_onmessage_invariant (frame : string) (w : World) :
  invariant (this w) -> invariant (this (fst (ws_onmessage frame w))).
Proof.
  intros H. unfold ws_onmessage.
  destruct (JSON_parse frame) as [v|]; [|exact H].
  assert (Hv : invariant (this (addToBuffer v w))).
  { apply (session_invariant (this w)); [reflexivity| |exact H].
    destruct H as (_ & _ & Hm & _ & Hl). now apply addToBuffer_bounded. }
  destruct (JS.get v "type") as [t|]; [|exact Hv].
  destruct (JS.get v "data") as [d|]; [|exact Hv].
  destruct (JS.is_string "content" t); [exact Hv|].
  destruct (JS.is_string "done" t).
  - pose proof (close_invariant _ Hv) as Hc.
    destruct (close (addToBuffer v w)). exact Hc.
  - destruct (JS.is_string "error" t); exact Hv.
Qed.

Lemma ws_onclose_invariant (w : World) :
  invariant (this w) -> invariant (this (fst (ws_onclose w))).
Proof.
  unfold ws_onclose, reconnect, invariant. intros (H1 & H2 & H3 & H4 & H5).
  destruct (Z.ltb_spec (reconnectAttempts (this w))
                       (maxReconnectAttempts (this w))); simpl;
    repeat split; auto; lia.
Qed.

Lemma startWebSocketStream_invariant (k : SocketOutcome) (w : World) :
  invariant (this w) -> invariant (this (fst (startWebSocketStream k w))).
Proof. destruct k; simpl; auto. Qed.

Lemma step_invariant (o : Op) (w : World) :
  invariant (this w) -> invariant (this (fst (step o w))).
Proof.
  intros H. destruct o; simpl.
  - now apply startSSEStream_invariant.
  - now apply startWebSocketStream_invariant.
  - destruct H as (H1 & H2 & H3 & H4 & H5). repeat split; auto; simpl; lia.
  - now apply ws_onmessage_invariant.
  - exact H.
  - now apply ws_onclose_invariant.
  - unfold timer_fires. destruct (reconnect_timer (this w)).
    + now apply startSSEStream_invariant.
    + now apply startWebSocketStream_invariant.
    + exact H.
  - apply (session_invariant (this w)); [reflexivity| |exact H].
    destruct H as (_ & _ & Hm & _ & Hl). now apply addToBuffer_bounded.
  - exact H.
  - now apply close_invariant.
Qed.

Lemma run_invariant (ops : list Op) (w : World) :
  invariant (this w) -> invariant (this (fst (run ops w))).
Proof.
  revert w. induction ops as [|o ops IH]; intros w H; simpl; [exact H|].
  pose proof (step_invariant o w H) as Hs.
  destruct (step o w) as [w1 es]. specialize (IH w1 Hs).
  destruct (run ops w1) as [w2 es2]. exact IH.
Qed.

Lemma initial_invariant : invariant (this initial).
Proof. unfold invariant; simpl; repeat split; lia. Qed.

(** ** The event source *)

(** C10. After the constructor and after every history of operations
    and events the [eventSource] field is null; so the timer of
    [reconnect] never takes its SSE branch: when it fires it re-invokes
    the WebSocket start, or nothing. *)
Theorem eventSource_always_null :
  forall ops : list Op,
    let w := fst (run ops initial) in
    eventSource constructor = None
    /\ eventSource (this w) = None
    /\ reconnect_timer (this w) <> RestartSSE
    /\ forall f k,
         timer_fires f k w = startWebSocketStream k w
         \/ timer_fires f k w = (w, []).
Proof.
  intros ops w.
  assert (H : eventSource (this w) = None)
    by apply (run_invariant ops initial initial_invariant).
  split; [reflexivity|]. split; [exact H|].
  unfold timer_fires, reconnect_timer. rewrite H.
  split; [destruct (websocket (this w)); discriminate|].
  intros f k. destruct (websocket (this w)); auto.
Qed.

(** ** The bounded buffer *)

Lemma stamp_spread (k : nat) (events : list JSValue) :
  map spread (stamp k events) = events.
Proof.
  revert k. induction events as [|e es IH]; intros k; simpl;
    [reflexivity|now rewrite IH].
Qed.

Lemma stamp_length (k : nat) (events : list JSValue) :
  length (stamp k events) = length events.
Proof. now rewrite <- (length_map spread), stamp_spread. Qed.

Lemma addToBuffer_buffer (d : JSValue) (w : World) :
  buffer (this (addToBuffer d w))
  = let pushed :=
      buffer (this w) ++ [mkBuffered d (toISOString (clock_reads w))] in
    if (Z.of_nat (length pushed) >? maxBufferSize (this w))%Z
    then tl pushed else pushed.
Proof. reflexivity. Qed.

(** After any run of appends the buffer holds the last 1000 of the
    entries it had and the entries built since. *)
Lemma append_all_buffer (events : list JSValue) (w : World) :
  maxBufferSize (this w) = 1000%Z ->
  (length (buffer (this w)) <= 1000)%nat ->
  let all := buffer (this w) ++ stamp (clock_reads w) events in
  buffer (this (append_all events w)) = skipn (length all - 1000) all
  /\ maxBufferSize (this (append_all events w)) = 1000%Z.
Proof.
  revert w. induction events as [|e es IH]; intros w Hm Hl all.
  - subst all. simpl. rewrite app_nil_r.
    replace (length (buffer (this w)) - 1000) with 0 by lia. now split.
  - unfold append_all. simpl fold_left. fold (append_all es (addToBuffer e w)).
    destruct (IH (addToBuffer e w) Hm (addToBuffer_bounded e w Hm Hl))
      as [-> ->].
    split; [|reflexivity]. subst all.
    rewrite addToBuffer_buffer. cbn [clock_reads addToBuffer stamp].
    cbv zeta. rewrite Hm.
    set (entry := mkBuffered e (toISOString (clock_reads w))).
    set (later := stamp (S (clock_reads w)) es).
    destruct (Z.gtb_spec (Z.of_nat (length (buffer (this w) ++ [entry]))) 1000)
      as [H|H]; rewrite length_app in H; simpl in H.
    + destruct (buffer (this w)) as [|x b]; [simpl in H; lia|].
      simpl in Hl, H. assert (Hb : length b = 999) by lia.
      cbn [tl app]. rewrite <- app_assoc. cbn [app].
      rewrite !length_app. cbn [length]. rewrite length_app, Hb. cbn [length].
      replace (S (999 + S (length later)) - 1000) with (S (length later)) by lia.
      replace (999 + S (length later) - 1000) with (length later) by lia.
      reflexivity.
    + now rewrite <- app_assoc.
Qed.

(** C4. Over every history the buffer holds at most 1000 entries, and
    each [addToBuffer] keeps that bound; a call on a full buffer evicts
    the oldest entry and appends the new one, a call on a buffer that is
    not full only appends; and 1001 distinct events appended to a buffer
    within its bound leave the entries of the last 1000, in the order of
    their appends, without the first. *)
Theorem buffer_bounded_fifo :
  (forall ops : list Op,
      (length (buffer (this (fst (run ops initial)))) <= 1000)%nat)
  /\ (forall (data : JSValue) (w : World),
         maxBufferSize (this w) = 1000%Z ->
         (length (buffer (this w)) <= 1000)%nat ->
         (length (buffer (this (addToBuffer data w))) <= 1000)%nat
         /\ maxBufferSize (this (addToBuffer data w)) = 1000%Z)
  /\ (forall (data : JSValue) (w : World),
         maxBufferSize (this w) = 1000%Z ->
         let entry := mkBuffered data (toISOString (clock_reads w)) in
         (length (buffer (this w)) = 1000 ->
          buffer (this (addToBuffer data w)) = tl (buffer (this w)) ++ [entry])
         /\ (length (buffer (this w)) < 1000 ->
             buffer (this (addToBuffer data w)) = buffer (this w) ++ [entry]))
  /\ (forall (w : World) (first : JSValue) (others : list JSValue),
         maxBufferSize (this w) = 1000%Z ->
         (length (buffer (this w)) <= 1000)%nat ->
         length others = 1000 ->
         NoDup (first :: others) ->
         let b := buffer (this (append_all (first :: others) w)) in
         b = stamp (S (clock_reads w)) others
         /\ map spread b = others
         /\ ~ In first (map spread b)
         /\ ~ In (mkBuffered first (toISOString (clock_reads w))) b).
Proof.
  split; [|split; [|split]].
  - intros ops. apply (run_invariant ops initial initial_invariant).
  - intros data w Hm Hl. split; [now apply addToBuffer_bounded|exact Hm].
  - intros data w Hm entry. unfold addToBuffer.
    cbn [this buffer set_buffer]. fold entry. rewrite Hm, length_app.
    cbn [length]. split; intros Hl.
    + destruct (Z.gtb_spec (Z.of_nat (length (buffer (this w)) + 1)) 1000);
        [|lia].
      destruct (buffer (this w)); [discriminate|reflexivity].
    + destruct (Z.gtb_spec (Z.of_nat (length (buffer (this w)) + 1)) 1000);
        [lia|reflexivity].
  - intros w first others Hm Hl Hlen Hnd b.
    assert (Hb : b = stamp (S (clock_reads w)) others).
    { subst b. destruct (append_all_buffer (first :: others) w Hm Hl)
        as [-> _].
      cbn [stamp]. rewrite length_app. cbn [length].
      rewrite stamp_length, Hlen.
      replace (length (buffer (this w)) + 1001 - 1000)
        with (length (buffer (this w)) + 1) by lia.
      rewrite skipn_app, skipn_all2 by lia.
      replace (length (buffer (this w)) + 1 - length (buffer (this w)))
        with 1 by lia.
      reflexivity. }
    assert (Hs : map spread b = others) by (rewrite Hb; apply stamp_spread).
    inversion Hnd as [|x l Hnotin _]; subst x l.
    repeat split; [exact Hb|exact Hs|now rewrite Hs|].
    intros Hin. apply Hnotin. rewrite <- Hs.
    change first
      with (spread (mkBuffered first (toISOString (clock_reads w)))).
    now apply in_map.
Qed.

(** ** Reconnecting *)

Lemma step_quiet (o : Op) (w : World) :
  invariant (this w) ->
  resets o = false ->
  o <> OpClosed ->
  reconnectAttempts (this (fst (step o w))) = reconnectAttempts (this w)
  /\ timers (snd (step o w)) = [].
Proof.
  intros Hi Hr Hc.
  assert (Hsse : forall h,
             reconnectAttempts (this (fst (startSSEStream h w)))
             = reconnectAttempts (this w)
             /\ timers (snd (startSSEStream h w)) = []).
  { intros h. pose proof (startSSEStream_keeps h w) as K.
    destruct (startSSEStream h w) as [w1 es]. simpl.
    destruct K as (Hs & _ & Ht & _). unfold session_of in Hs.
    split; [congruence|exact Ht]. }
  assert (Hws : forall k,
             reconnectAttempts (this (fst (startWebSocketStream k w)))
             = reconnectAttempts (this w)
             /\ timers (snd (startWebSocketStream k w)) = []).
  { intros k. destruct k; now split. }
  destruct o; simpl in *; try discriminate; try contradiction; auto.
  unfold timer_fires. destruct (reconnect_timer (this w)); auto.
Qed.

Lemma backoff_delays : map backoff [1; 2; 3; 4; 5]%Z = delays.
Proof. reflexivity. Qed.

Lemma ws_onclose_below (w : World) :
  maxReconnectAttempts (this w) = 5%Z ->
  (reconnectAttempts (this w) < 5)%Z ->
  exists line,
    ws_onclose w
    = (with_service w (set_reconnectAttempts
                         (this w) (reconnectAttempts (this w) + 1)),
       [ConsoleLog "WebSocket closed"; ConsoleLog line;
        SetTimeout (backoff (reconnectAttempts (this w) + 1))]).
Proof.
  intros Hm Hc. unfold ws_onclose, reconnect. rewrite Hm.
  destruct (Z.ltb_spec (reconnectAttempts (this w)) 5); [|lia].
  eexists. reflexivity.
Qed.

Lemma ws_onclose_exhausted (w : World) :
  maxReconnectAttempts (this w) = 5%Z ->
  (5 <= reconnectAttempts (this w))%Z ->
  ws_onclose w = (w, [ConsoleLog "WebSocket closed"]).
Proof.
  intros Hm Hc. unfold ws_onclose. rewrite Hm.
  destruct (Z.ltb_spec (reconnectAttempts (this w)) 5); [lia|reflexivity].
Qed.

(** Without a reset in between, the close events set the timers of the
    backoff list from the current attempt on, and no more. *)
Lemma run_timers (ops : list Op) (w : World) :
  invariant (this w) ->
  forallb (fun o => negb (resets o)) ops = true ->
  timers (snd (run ops w))
  = firstn (closes ops)
           (skipn (Z.to_nat (reconnectAttempts (this w))) delays).
Proof.
  revert w. induction ops as [|o ops IH]; intros w Hi Hn.
  - reflexivity.
  - simpl in Hn. apply andb_true_iff in Hn as [Ho Hn].
    apply negb_true_iff in Ho.
    pose proof (step_invariant o w Hi) as Hi1.
    assert (Hcase : o = OpClosed \/ o <> OpClosed)
      by (destruct o; (now left) || (right; discriminate)).
    destruct Hcase as [->|Hne].
    + simpl. destruct Hi as (H1 & H2 & H3 & H4 & H5).
      destruct (Z.ltb_spec (reconnectAttempts (this w)) 5) as [Hlt|Hge].
      * destruct (ws_onclose_below w H2 Hlt) as (line & E).
        simpl in Hi1. specialize (IH (fst (ws_onclose w)) Hi1 Hn).
        rewrite E in IH |- *. simpl in IH.
        destruct (run ops _) as [w2 es2]. simpl in IH |- *. rewrite IH.
        assert (Hc : reconnectAttempts (this w) = 0%Z
                     \/ reconnectAttempts (this w) = 1%Z
                     \/ reconnectAttempts (this w) = 2%Z
                     \/ reconnectAttempts (this w) = 3%Z
                     \/ reconnectAttempts (this w) = 4%Z) by lia.
        destruct Hc as [-> | [-> | [-> | [-> | ->]]]]; reflexivity.
      * rewrite (ws_onclose_exhausted w H2 Hge).
        specialize (IH w (conj H1 (conj H2 (conj H3 (conj H4 H5)))) Hn).
        destruct (run ops w) as [w2 es2]. simpl in IH |- *. rewrite IH.
        replace (reconnectAttempts (this w)) with 5%Z by lia.
        simpl. now destruct (closes ops).
    + destruct (step_quiet o w Hi Ho Hne) as [Hc Ht].
      simpl. destruct (step o w) as [w1 es]. simpl in *.
      specialize (IH w1 Hi1 Hn).
      destruct (run ops w1) as [w2 es2]. simpl in IH |- *.
      rewrite timers_app, Ht, IH, Hc. simpl.
      destruct o; try reflexivity. contradiction.
Qed.

(** C5. A close event with the attempt counter at [k - 1], for
    [k = 1..5], increments the counter to [k] and then sets one timer
    of [min(1000 * 2^k, 16000)] ms, calling no callback: 2000, 4000,
    8000, 16000, 16000.  With the counter at 5 or above a close event
    sets no timer, calls no callback and leaves the instance as it is.
    So over a history that does not reset the counter the timers are
    the first of these five delays, one for each close event: there is
    no sixth; and over every history the counter stays within 0..5. *)
Theorem reconnect_backoff :
  (forall (w : World) (k : Z),
      maxReconnectAttempts (this w) = 5%Z ->
      reconnectAttempts (this w) = (k - 1)%Z ->
      (1 <= k <= 5)%Z ->
      let '(w', es) := ws_onclose w in
      reconnectAttempts (this w') = k
      /\ timers es = [Z.min (1000 * 2 ^ k) 16000]
      /\ calls es = [])
  /\ map (fun k => Z.min (1000 * 2 ^ k) 16000) [1; 2; 3; 4; 5]%Z
     = [2000; 4000; 8000; 16000; 16000]%Z
  /\ (forall w : World,
         maxReconnectAttempts (this w) = 5%Z ->
         (5 <= reconnectAttempts (this w))%Z ->
         ws_onclose w = (w, [ConsoleLog "WebSocket closed"]))
  /\ (forall ops : list Op,
         forallb (fun o => negb (resets o)) ops = true ->
         timers (snd (run ops initial))
         = firstn (closes ops) [2000; 4000; 8000; 16000; 16000]%Z)
  /\ (forall ops : list Op,
         (0 <= reconnectAttempts (this (fst (run ops initial))) <= 5)%Z).
Proof.
  split; [|split; [|split; [|split]]];
    [| | | |intros ops; apply (run_invariant ops initial initial_invariant)].
  - intros w k Hm Hc Hk.
    destruct (ws_onclose_below w Hm) as (line & ->); [lia|].
    simpl. rewrite Hc. replace (k - 1 + 1)%Z with k by lia. now repeat split.
  - reflexivity.
  - exact ws_onclose_exhausted.
  - intros ops Hn. now rewrite (run_timers ops initial initial_invariant Hn).
Qed.

(** ** Lines and frames that do not parse *)








(** ** An error event on the socket *)

Lemma ws_onmessage_error (frame : string) (v : JSValue) (d : string)
      (w : World) :
  JSON_parse frame = Some v ->
  decodes v (Error d) ->
  ws_onmessage frame w = (addToBuffer v w, [Call (OnError (JStr d))]).
Proof.
  intros Hp [Ht Hd]. unfold ws_onmessage. now rewrite Hp, Ht, Hd.
Qed.

Lemma ws_onmessage_done (frame : string) (v : JSValue) (d : string)
      (w : World) :
  JSON_parse frame = Some v ->
  decodes v (Done d) ->
  ws_onmessage frame w
  = (fst (close (addToBuffer v w)),
     Call (OnComplete (JStr d)) :: snd (close (addToBuffer v w))).
Proof.
  intros Hp [Ht Hd]. unfold ws_onmessage. rewrite Hp, Ht, Hd. simpl.
  now destruct (close (addToBuffer v w)).
Qed.


(** ** Closing *)

Lemma socket_ops_app (a b : list Effect) :
  socket_ops (a ++ b) = socket_ops a ++ socket_ops b.
Proof.
  induction a as [|e a IH]; simpl; [reflexivity|].
  destruct e; simpl; now rewrite IH.
Qed.

Lemma close_result (w : World) :
  eventSource (this (fst (close w))) = None
  /\ websocket (this (fst (close w))) = None
  /\ reconnectAttempts (this (fst (close w))) = 0%Z
  /\ buffer (this (fst (close w))) = buffer (this w)
  /\ maxBufferSize (this (fst (close w))) = maxBufferSize (this w)
  /\ maxReconnectAttempts (this (fst (close w))) = maxReconnectAttempts (this w)
  /\ sockets (fst (close w)) = sockets w
  /\ clock_reads (fst (close w)) = clock_reads w.
Proof.
  destruct w as [[es ws k m b mb] c n]. unfold close. simpl.
  destruct es, ws; simpl; repeat split.
Qed.

(** X1. [close()] leaves both handles null and the counter at zero and
    keeps the buffer and the two limits; a second [close()] changes
    nothing and has no effect. *)
Theorem close_twice :
  forall w : World,
    let w1 := fst (close w) in
    close w1 = (w1, [])
    /\ eventSource (this w1) = None
    /\ websocket (this w1) = None
    /\ reconnectAttempts (this w1) = 0%Z
    /\ buffer (this w1) = buffer (this w)
    /\ maxBufferSize (this w1) = maxBufferSize (this w)
    /\ maxReconnectAttempts (this w1) = maxReconnectAttempts (this w).
Proof.
  intros w w1. destruct (close_result w) as (H1 & H2 & H3 & H4 & H5 & H6 & _).
  repeat split; try assumption. subst w1.
  destruct w as [[es ws k m b mb] c n]. unfold close. simpl.
  destruct es, ws; reflexivity.
Qed.

(** Once both handles are null, close events and timers call nothing,
    touch no socket and build none. *)
Lemma run_without_session (ops : list Op) (w : World) :
  forallb close_or_timer ops = true ->
  eventSource (this w) = None ->
  websocket (this w) = None ->
  let '(w1, es) := run ops w in
  calls es = []
  /\ socket_ops es = []
  /\ eventSource (this w1) = None
  /\ websocket (this w1) = None
  /\ sockets w1 = sockets w
  /\ buffer (this w1) = buffer (this w).
Proof.
  revert w. induction ops as [|o ops IH]; intros w Ho He Hw; simpl.
  - now repeat split.
  - simpl in Ho. apply andb_true_iff in Ho as [Hc Ho].
    assert (Hs : let '(w1, es) := step o w in
                 calls es = [] /\ socket_ops es = []
                 /\ eventSource (this w1) = None
                 /\ websocket (this w1) = None
                 /\ sockets w1 = sockets w
                 /\ buffer (this w1) = buffer (this w)).
    { destruct o; try discriminate; simpl.
      - unfold ws_onclose, reconnect.
        destruct (reconnectAttempts (this w) <? maxReconnectAttempts (this w))%Z;
          simpl; now repeat split.
      - unfold timer_fires, reconnect_timer. rewrite He, Hw. now repeat split. }
    destruct (step o w) as [w1 es].
    destruct Hs as (H1 & H2 & H3 & H4 & H5 & H6).
    specialize (IH w1 Ho H3 H4). destruct (run ops w1) as [w2 es2].
    destruct IH as (I1 & I2 & I3 & I4 & I5 & I6).
    rewrite calls_app, socket_ops_app, H1, H2, I1, I2.
    repeat split; congruence.
Qed.

(** X2. After [close()], whatever close events arrive and whatever
    reconnect timers fire, no callback is called, no socket is built or
    used, and both handles stay null: a pending reconnect is void. *)
Theorem close_ends_reconnecting :
  forall (ops : list Op) (w : World),
    forallb close_or_timer ops = true ->
    let w0 := fst (close w) in
    let '(w1, es) := run ops w0 in
    calls es = []
    /\ socket_ops es = []
    /\ eventSource (this w1) = None
    /\ websocket (this w1) = None
    /\ sockets w1 = sockets w
    /\ buffer (this w1) = buffer (this w).
Proof.
  intros ops w Ho w0. subst w0.
  destruct (close_result w) as (He & Hw & _ & Hb & _ & _ & Hs & _).
  pose proof (run_without_session ops (fst (close w)) Ho He Hw) as H.
  destruct (run ops (fst (close w))) as [w1 es].
  destruct H as (H1 & H2 & H3 & H4 & H5 & H6).
  repeat split; try assumption; congruence.
Qed.

(** ** One terminal callback *)

Lemma sse_line_calls (line : string) (w : World) :
  let '(f, _, es) := sse_line line w in
  match f with
  | Continue => exists ms, calls es = map OnMessage ms
  | Return => exists v, calls es = [OnComplete v] \/ calls es = [OnError v]
  end.
Proof.
  unfold sse_line.
  destruct (Text.startsWith "data: " line); [|now exists []].
  destruct (JSON_parse (Text.drop 6 line)) as [v|]; [|now exists []].
  destruct (JS.get v "type") as [t|]; [|now exists []].
  destruct (JS.get v "data") as [d|]; [|now exists []].
  destruct (JS.is_string "content" t); [now exists [d]|].
  destruct (JS.is_string "done" t); [exists d; now left|].
  destruct (JS.is_string "error" t); [exists d; now right|now exists []].
Qed.

Lemma sse_lines_calls (lines : list string) (w : World) :
  let '(f, _, es) := sse_lines lines w in
  exists ms,
    match f with
    | Continue => calls es = map OnMessage ms
    | Return =>
        exists v, calls es = map OnMessage ms ++ [OnComplete v]
                  \/ calls es = map OnMessage ms ++ [OnError v]
    end.
Proof.
  revert w. induction lines as [|l ls IH]; intros w; simpl.
  - now exists [].
  - pose proof (sse_line_calls l w) as H.
    destruct (sse_line l w) as [[[] w1] es].
    + destruct H as [ms Hm]. specialize (IH w1).
      destruct (sse_lines ls w1) as [[f w2] es2]. destruct IH as [ms2 H2].
      exists (ms ++ ms2). rewrite calls_app, Hm, map_app.
      destruct f.
      * now rewrite H2.
      * destruct H2 as [v [-> | ->]]; exists v; rewrite <- !app_assoc;
          [now left|now right].
    + destruct H as [v Hv]. exists []. exists v. exact Hv.
Qed.

Lemma read_loop_calls (chunks : list string) (ending : Ending) (w : World) :
  exists ms v,
    calls (snd (read_loop chunks ending w)) = map OnMessage ms ++ [OnComplete v]
    \/ calls (snd (read_loop chunks ending w)) = map OnMessage ms ++ [OnError v].
Proof.
  revert w. induction chunks as [|c cs IH]; intros w; simpl.
  - destruct ending as [|m].
    + exists [], (JStr EmptyString). now left.
    + exists [], (JStr m). now right.
  - pose proof (sse_lines_calls (Text.split_lines c) w) as H.
    destruct (sse_lines (Text.split_lines c) w) as [[[] w1] es].
    + destruct H as [ms Hm]. destruct (IH w1) as (ms2 & v & H2).
      destruct (read_loop cs ending w1) as [w2 es2]. simpl in *.
      exists (ms ++ ms2), v. rewrite calls_app, Hm, map_app, <- !app_assoc.
      destruct H2 as [-> | ->]; auto.
    + destruct H as (ms & v & Hv). now exists ms, v.
Qed.

Lemma startSSEStream_calls (h : FetchOutcome) (w : World) :
  h <> StorageThrows ->
  exists ms v,
    calls (snd (startSSEStream h w)) = map OnMessage ms ++ [OnComplete v]
    \/ calls (snd (startSSEStream h w)) = map OnMessage ms ++ [OnError v].
Proof.
  intros Hh. destruct h as [|m|status chunks ending]; [contradiction| |].
  - exists [], (JStr m). now right.
  - simpl. destruct (negb (response_ok status)).
    + eexists [], _. now right.
    + apply read_loop_calls.
Qed.

(** X3. Unless reading the token throws, [startSSEStream] ends in
    exactly one terminal callback, whatever the host answers: the
    fragments go to [onMessage], then either [onComplete] or [onError] is
    called, once, and nothing after it.  When reading the token throws no
    callback is called at all. *)
Theorem sse_one_terminal_callback :
  forall (h : FetchOutcome) (w : World),
    h <> StorageThrows ->
    let cs := calls (snd (startSSEStream h w)) in
    (exists ms t,
        cs = map OnMessage ms ++ [t]
        /\ exists v, t = OnComplete v \/ t = OnError v)
    /\ length (completed cs) + length (failed cs) = 1
    /\ calls (snd (startSSEStream StorageThrows w)) = [].
Proof.
  intros h w Hh cs. subst cs.
  destruct (startSSEStream_calls h w Hh) as (ms & v & [-> | ->]).
  - split; [exists ms, (OnComplete v); split; [reflexivity|exists v; now left]|].
    rewrite completed_app, failed_app.
    destruct (messages_only ms) as (-> & -> & _). now split.
  - split; [exists ms, (OnError v); split; [reflexivity|exists v; now right]|].
    rewrite completed_app, failed_app.
    destruct (messages_only ms) as (-> & -> & _). now split.
Qed.

(** ** An error event, a read that fails *)

Lemma sse_lines_terminal (lines : list string) (ds : list string)
      (e : StreamEvent) (w : World) :
  flow_of e = Return ->
  Forall2 valid_line lines (map Content ds ++ [e]) ->
  exists w1 es,
    sse_lines lines w = (Return, w1, es) /\
    calls es = map (fun d => OnMessage (JStr d)) ds ++ [callback_of e].
Proof.
  intros He H. apply Forall2_app_inv_r in H as (l1 & l2 & H1 & H2 & ->).
  inversion H2 as [|line e' ls es' Hl Hls]; subst. inversion Hls; subst.
  rewrite sse_lines_app.
  destruct (sse_lines_contents l1 ds w H1) as (w1 & es & -> & Hc).
  simpl. destruct (sse_line_valid line e w1 Hl) as (v & _ & ->).
  rewrite He. exists (addToBuffer v w1), (es ++ [Call (callback_of e)]).
  split; [reflexivity|]. now rewrite calls_app, Hc.
Qed.

(** X4. A body of valid lines, content events and then an [error]
    event, read in chunks of whole lines: [onMessage] is called for each
    content event in order, then [onError] once with the data of the
    event; [onComplete] is not called, and what follows the [error] line
    is not read, whatever it is and however the body ends. *)
Theorem sse_error_event_terminal :
  forall (contents : list string) (reason : string)
         (groups : list (list string)) (rest : list string)
         (ending : Ending) (status : Z) (w : World),
    response_ok status = true ->
    Forall2 valid_line (concat groups) (map Content contents ++ [Error reason]) ->
    let cs :=
      calls (snd (startSSEStream
                    (Response status (map Text.frame groups ++ rest) ending) w)) in
    cs = map (fun d => OnMessage (JStr d)) contents ++ [OnError (JStr reason)]
    /\ completed cs = []
    /\ failed cs = [JStr reason].
Proof.
  intros contents reason groups rest ending status w Hok Hv cs.
  assert (E : cs = map (fun d => OnMessage (JStr d)) contents
                   ++ [OnError (JStr reason)]).
  { subst cs. unfold startSSEStream. rewrite Hok. simpl negb. cbv iota.
    rewrite read_loop_frames by (eapply valid_lines_no_LF; exact Hv).
    destruct (sse_lines_terminal _ _ (Error reason) w eq_refl Hv)
      as (w1 & es & -> & Hc).
    exact Hc. }
  split; [exact E|]. rewrite E, <- (map_map JStr OnMessage).
  rewrite completed_app, failed_app.
  destruct (messages_only (map JStr contents)) as (-> & -> & _).
  now split.
Qed.

Lemma read_loop_fails (chunks : list string) (m : string) (w : World) :
  Forall (fun c => Forall (fun l => terminal l = false) (Text.split_lines c))
         chunks ->
  exists ms,
    calls (snd (read_loop chunks (ReadFails m) w))
    = map OnMessage ms ++ [OnError (JStr m)].
Proof.
  intros H. revert w. induction H as [|c cs Hc _ IH]; intros w.
  - now exists [].
  - simpl. destruct (sse_lines_not_terminal _ w Hc) as (w1 & es & ms & -> & Hm).
    destruct (IH w1) as (ms2 & Hm2).
    destruct (read_loop cs (ReadFails m) w1) as [w2 es2]. simpl in *.
    exists (ms ++ ms2). now rewrite calls_app, Hm, Hm2, map_app, app_assoc.
Qed.

(** X5. A body whose read throws before any line carried a [done] or
    [error] event: the fragments read so far went to [onMessage], then
    [onError] is called once with the message of the exception;
    [onComplete] is not called. *)
Theorem sse_read_failure :
  forall (chunks : list string) (m : string) (status : Z) (w : World),
    response_ok status = true ->
    Forall (fun c => Forall (fun l => terminal l = false) (Text.split_lines c))
           chunks ->
    let cs :=
      calls (snd (startSSEStream (Response status chunks (ReadFails m)) w)) in
    failed cs = [JStr m]
    /\ completed cs = []
    /\ exists fragments, cs = map OnMessage fragments ++ [OnError (JStr m)].
Proof.
  intros chunks m status w Hok H cs. subst cs.
  unfold startSSEStream. rewrite Hok. simpl negb. cbv iota.
  destruct (read_loop_fails chunks m w H) as (ms & ->).
  rewrite completed_app, failed_app.
  destruct (messages_only ms) as (-> & -> & _).
  repeat split; try reflexivity. now exists ms.
Qed.

(** ** What a stream does to the instance *)

Lemma append_all_app (a b : list JSValue) (w : World) :
  append_all (a ++ b) w = append_all b (append_all a w).
Proof. unfold append_all. apply fold_left_app. Qed.

Lemma sse_line_appends (line : string) (w : World) :
  let '(_, w1, es) := sse_line line w in
  (exists vs, w1 = append_all vs w) /\ socket_ops es = [].
Proof.
  unfold sse_line.
  destruct (Text.startsWith "data: " line); [|split; [now exists []|easy]].
  destruct (JSON_parse (Text.drop 6 line)) as [v|];
    [|split; [now exists []|easy]].
  assert (Hv : exists vs, addToBuffer v w = append_all vs w) by now exists [v].
  destruct (JS.get v "type") as [t|]; [|now split].
  destruct (JS.get v "data") as [d|]; [|now split].
  destruct (JS.is_string "content" t); [now split|].
  destruct (JS.is_string "done" t); [now split|].
  destruct (JS.is_string "error" t); now split.
Qed.

Lemma sse_lines_appends (lines : list string) (w : World) :
  let '(_, w1, es) := sse_lines lines w in
  (exists vs, w1 = append_all vs w) /\ socket_ops es = [].
Proof.
  revert w. induction lines as [|l ls IH]; intros w; simpl.
  - split; [now exists []|reflexivity].
  - pose proof (sse_line_appends l w) as H.
    destruct (sse_line l w) as [[[] w1] es]; [|exact H].
    specialize (IH w1). destruct (sse_lines ls w1) as [[f w2] es2].
    destruct H as [[vs ->] Hs], IH as [[vs2 ->] Hs2]. split.
    + exists (vs ++ vs2). now rewrite append_all_app.
    + now rewrite socket_ops_app, Hs, Hs2.
Qed.

Lemma read_loop_appends (chunks : list string) (ending : Ending) (w : World) :
  let '(w1, es) := read_loop chunks ending w in
  (exists vs, w1 = append_all vs w) /\ socket_ops es = [].
Proof.
  revert w. induction chunks as [|c cs IH]; intros w; simpl.
  - destruct ending; (split; [now exists []|reflexivity]).
  - pose proof (sse_lines_appends (Text.split_lines c) w) as H.
    destruct (sse_lines (Text.split_lines c) w) as [[[] w1] es]; [|exact H].
    specialize (IH w1). destruct (read_loop cs ending w1) as [w2 es2].
    destruct H as [[vs ->] Hs], IH as [[vs2 ->] Hs2]. split.
    + exists (vs ++ vs2). now rewrite append_all_app.
    + now rewrite socket_ops_app, Hs, Hs2.
Qed.

(** X6. Whatever the host answers, [startSSEStream] changes nothing of
    the instance but the buffer, to which it appends, by [addToBuffer],
    values it parsed: the handles, the attempt counter and the limits
    stay, no timer is set, no socket is built, used or closed. *)
Theorem sse_only_appends :
  forall (h : FetchOutcome) (w : World),
    let '(w1, es) := startSSEStream h w in
    (exists values, w1 = append_all values w)
    /\ session_of (this w1) = session_of (this w)
    /\ sockets w1 = sockets w
    /\ timers es = []
    /\ socket_ops es = [].
Proof.
  intros h w. pose proof (startSSEStream_keeps h w) as K.
  assert (A : let '(w1, es) := startSSEStream h w in
              (exists vs, w1 = append_all vs w) /\ socket_ops es = []).
  { destruct h as [|m|status chunks ending]; simpl;
      try (split; [now exists []|reflexivity]).
    destruct (negb (response_ok status));
      [split; [now exists []|reflexivity]|apply read_loop_appends]. }
  destruct (startSSEStream h w) as [w1 es].
  destruct K as (Hs & Hk & Ht & _), A as [Hv Ho]. now repeat split.
Qed.

(** ** The newest entry *)

Lemma skipn_snoc_last {A : Type} (l : list A) (x : A) :
  skipn (length (l ++ [x]) - 1) (l ++ [x]) = [x].
Proof.
  rewrite length_app. simpl.
  replace (length l + 1 - 1) with (length l) by lia.
  rewrite skipn_app, skipn_all, Nat.sub_diag. reflexivity.
Qed.

Lemma getRecentBuffer_one (s : Service) :
  getRecentBuffer (Some 1%Z) s = skipn (length (buffer s) - 1) (buffer s).
Proof.
  unfold getRecentBuffer, slice_from.
  change (Z.opp 1) with (-1)%Z. change (-1 <? 0)%Z with true.
  cbv iota. f_equal. lia.
Qed.

Lemma addToBuffer_newest (d : JSValue) (w : World) :
  (1 <= maxBufferSize (this w))%Z ->
  getRecentBuffer (Some 1%Z) (this (addToBuffer d w))
  = [mkBuffered d (toISOString (clock_reads w))].
Proof.
  intros Hm.
  rewrite getRecentBuffer_one.
  rewrite addToBuffer_buffer. cbv zeta.
  set (e := mkBuffered d (toISOString (clock_reads w))).
  destruct (Z.gtb_spec (Z.of_nat (length (buffer (this w) ++ [e])))
                       (maxBufferSize (this w))) as [H|H].
  - rewrite length_app in H. simpl in H.
    destruct (buffer (this w)) as [|x b]; [simpl in H; lia|].
    simpl tl. apply (skipn_snoc_last b e).
  - apply (skipn_snoc_last (buffer (this w)) e).
Qed.

(** X7. With a capacity of one or more, every value that parses is the
    newest entry of the buffer right after its line or frame is handled,
    stamped with the clock reading of that moment, whatever its type and
    whether or not a callback is called for it: [getRecentBuffer(1)]
    returns exactly that entry. *)
Theorem newest_entry_buffered :
  forall w : World,
    (1 <= maxBufferSize (this w))%Z ->
    let entry v := mkBuffered v (toISOString (clock_reads w)) in
    (forall data : JSValue,
        getRecentBuffer (Some 1%Z) (this (addToBuffer data w)) = [entry data])
    /\ (forall (line : string) (v : JSValue),
           Text.startsWith "data: " line = true ->
           JSON_parse (Text.drop 6 line) = Some v ->
           getRecentBuffer (Some 1%Z) (this (snd (fst (sse_line line w))))
           = [entry v])
    /\ (forall (frame : string) (v : JSValue),
           JSON_parse frame = Some v ->
           getRecentBuffer (Some 1%Z) (this (fst (ws_onmessage frame w)))
           = [entry v]).
Proof.
  intros w Hm entry. split; [|split].
  - intros data. now apply addToBuffer_newest.
  - intros line v Hp Hv. unfold sse_line. rewrite Hp, Hv.
    pose proof (addToBuffer_newest v w Hm) as H.
    destruct (JS.get v "type") as [t|]; [|exact H].
    destruct (JS.get v "data") as [d|]; [|exact H].
    destruct (JS.is_string "content" t); [exact H|].
    destruct (JS.is_string "done" t); [exact H|].
    destruct (JS.is_string "error" t); exact H.
  - intros frame v Hv. unfold ws_onmessage. rewrite Hv.
    pose proof (addToBuffer_newest v w Hm) as H.
    destruct (JS.get v "type") as [t|]; [|exact H].
    destruct (JS.get v "data") as [d|]; [|exact H].
    destruct (JS.is_string "content" t); [exact H|].
    destruct (JS.is_string "done" t).
    + destruct (close_result (addToBuffer v w)) as (_ & _ & _ & Hb & _).
      destruct (close (addToBuffer v w)) as [w2 es]. simpl in *.
      unfold getRecentBuffer in *. now rewrite Hb.
    + destruct (JS.is_string "error" t); exact H.
Qed.

(** ** A stream on the socket *)

Lemma append_all_session (vs : list JSValue) (w : World) :
  session_of (this (append_all vs w)) = session_of (this w)
  /\ sockets (append_all vs w) = sockets w.
Proof.
  revert w. induction vs as [|v vs IH]; intros w; [now split|].
  change (append_all (v :: vs) w) with (append_all vs (addToBuffer v w)).
  destruct (IH (addToBuffer v w)) as [-> ->]. now split.
Qed.

Lemma close_effects (w : World) :
  snd (close w)
  = match eventSource (this w) with Some e => [EsClose e] | None => [] end
    ++ match websocket (this w) with Some k => [WsClose k] | None => [] end.
Proof.
  destruct w as [[es ws k m b mb] c n]. unfold close. simpl.
  destruct es, ws; reflexivity.
Qed.

Lemma ws_onmessage_content (frame : string) (v : JSValue) (d : string)
      (w : World) :
  JSON_parse frame = Some v ->
  decodes v (Content d) ->
  ws_onmessage frame w = (addToBuffer v w, [Call (OnMessage (JStr d))]).
Proof.
  intros Hp [Ht Hd]. unfold ws_onmessage. now rewrite Hp, Ht, Hd.
Qed.

Lemma run_app (a b : list Op) (w : World) :
  run (a ++ b) w
  = let '(w1, e1) := run a w in
    let '(w2, e2) := run b w1 in (w2, e1 ++ e2).
Proof.
  revert w. induction a as [|o a IH]; intros w; simpl.
  - now destruct (run b w).
  - destruct (step o w) as [w1 e1]. rewrite IH.
    destruct (run a w1) as [w2 e2]. destruct (run b w2) as [w3 e3].
    now rewrite app_assoc.
Qed.

Lemma run_content_frames (frames : list string) (ds : list string)
      (w : World) :
  Forall2 valid_frame frames (map Content ds) ->
  exists vs es,
    run (map OpMessage frames) w = (append_all vs w, es)
    /\ calls es = map (fun d => OnMessage (JStr d)) ds
    /\ socket_ops es = [].
Proof.
  revert frames w. induction ds as [|d ds IH]; intros frames w H.
  - inversion H; subst. now exists [], [].
  - inversion H as [|fr e frs es' (v & Hv & Hd) Hfrs]; subst. simpl.
    rewrite (ws_onmessage_content fr v d w Hv Hd).
    destruct (IH frs (addToBuffer v w) Hfrs) as (vs & es & -> & Hc & Hs).
    exists (v :: vs), (Call (OnMessage (JStr d)) :: es).
    split; [reflexivity|]. simpl. now rewrite Hc, Hs.
Qed.

(** X8. Frames that are valid content events and then a [done] event:
    [onMessage] is called for each content event in order, then
    [onComplete] once with the data of the [done] event; the handler then
    closes whatever handle is set, so both handles are null and the
    counter is zero; and the close events and timers that follow call
    nothing and build no socket: the session does not come back. *)
Theorem ws_done_stream :
  forall (contents : list string) (final : string) (frames : list string)
         (later : list Op) (w : World),
    Forall2 valid_frame frames (map Content contents ++ [Done final]) ->
    forallb close_or_timer later = true ->
    let '(w1, es) := run (map OpMessage frames) w in
    calls es
    = map (fun d => OnMessage (JStr d)) contents ++ [OnComplete (JStr final)]
    /\ socket_ops es
       = match eventSource (this w) with Some e => [EsClose e] | None => [] end
         ++ match websocket (this w) with Some k => [WsClose k] | None => [] end
    /\ eventSource (this w1) = None
    /\ websocket (this w1) = None
    /\ reconnectAttempts (this w1) = 0%Z
    /\ calls (snd (run later w1)) = []
    /\ socket_ops (snd (run later w1)) = []
    /\ sockets (fst (run later w1)) = sockets w.
Proof.
  intros contents final frames later w H Hl.
  apply Forall2_app_inv_r in H as (f1 & f2 & H1 & H2 & ->).
  inversion H2 as [|fr e frs es' (v & Hv & Hd) Hfrs]; subst.
  inversion Hfrs; subst.
  destruct (run_content_frames f1 contents w H1) as (vs & es & Hr & Hc & Hs).
  assert (R : run (map OpMessage (f1 ++ [fr])) w
              = (fst (close (addToBuffer v (append_all vs w))),
                 es ++ Call (OnComplete (JStr final))
                    :: snd (close (addToBuffer v (append_all vs w))))).
  { rewrite map_app, run_app, Hr. simpl.
    rewrite (ws_onmessage_done fr v final _ Hv Hd). now rewrite app_nil_r. }
  rewrite R. clear R Hr.
  set (wv := addToBuffer v (append_all vs w)).
  destruct (close_result wv) as (He & Hw & Hk & _ & _ & _ & Hso & _).
  assert (Hsess : session_of (this wv) = session_of (this w)
                  /\ sockets wv = sockets w).
  { subst wv. destruct (append_all_session vs w) as [E1 E2].
    split; [exact E1|exact E2]. }
  destruct Hsess as [Hsess Hsock]. unfold session_of in Hsess.
  inversion Hsess as [[E1 E2 E3 E4 E5]].
  pose proof (run_without_session later (fst (close wv)) Hl He Hw) as Hrun.
  destruct (run later (fst (close wv))) as [w2 es2]. simpl.
  destruct Hrun as (R1 & R2 & _ & _ & R5 & _).
  rewrite calls_app, socket_ops_app, Hc, Hs. simpl.
  assert (Hcl : calls (snd (close wv)) = []
                /\ socket_ops (snd (close wv)) = snd (close wv)).
  { rewrite close_effects.
    destruct (eventSource (this wv)), (websocket (this wv)); now split. }
  destruct Hcl as [-> ->]. rewrite close_effects.
  change (eventSource (this wv)) with (eventSource (this (append_all vs w))).
  change (websocket (this wv)) with (websocket (this (append_all vs w))).
  rewrite E1, E2.
  repeat split; try assumption; congruence.
Qed.

(** X9. In every state an instance reaches, [onopen] puts the attempt
    counter back to zero and sends the request on the socket in place
    (when there is one): the next close event sets the first timer of the
    backoff again, 2000 ms.  The limit of five attempts counts the
    attempts since the last open, not those of the session. *)
Theorem open_resets_backoff :
  forall ops : list Op,
    let w := fst (run ops initial) in
    let '(w1, es) := ws_onopen w in
    reconnectAttempts (this w1) = 0%Z
    /\ socket_ops es
       = match websocket (this w) with Some k => [WsSend k] | None => [] end
    /\ calls es = []
    /\ timers (snd (ws_onclose w1)) = [2000%Z]
    /\ reconnectAttempts (this (fst (ws_onclose w1))) = 1%Z.
Proof.
  intros ops w.
  pose proof (run_invariant ops initial initial_invariant) as (_ & Hm & _).
  fold w in Hm. unfold ws_onopen, ws_onclose, reconnect. simpl. rewrite Hm.
  destruct (websocket (this w)); now repeat split.
Qed.

(** ** The chat store *)

Lemma lookup_set_same (k : string) (v : JSValue) (m : Message) :
  JS.lookup k (JS.set k v m) = v.
Proof.
  induction m as [|[k' v'] m IH]; simpl.
  - now rewrite String.eqb_refl.
  - destruct (String.eqb k k') eqn:E; simpl; rewrite E; [reflexivity|exact IH].
Qed.

Lemma lookup_set_other (k k' : string) (v : JSValue) (m : Message) :
  String.eqb k' k = false ->
  JS.lookup k' (JS.set k v m) = JS.lookup k' m.
Proof.
  intros Hk. induction m as [|[k0 v0] m IH]; simpl.
  - now rewrite Hk.
  - destruct (String.eqb k k0) eqn:E; simpl.
    + apply String.eqb_eq in E. subst k0. now rewrite Hk.
    + now rewrite IH.
Qed.

Lemma set_set (k : string) (v1 v2 : JSValue) (m : Message) :
  JS.set k v2 (JS.set k v1 m) = JS.set k v2 m.
Proof.
  induction m as [|[k' v'] m IH]; simpl.
  - now rewrite String.eqb_refl.
  - destruct (String.eqb k k') eqn:E; simpl; rewrite E; [reflexivity|].
    now rewrite IH.
Qed.

Lemma set_present (k : string) (s : string) (m : Message) :
  JS.lookup k m = JStr s -> JS.set k (JStr s) m = m.
Proof.
  induction m as [|[k' v'] m IH]; simpl; [discriminate|].
  destruct (String.eqb k k') eqn:E.
  - now intros ->.
  - intros H. now rewrite IH.
Qed.

Lemma update_last_snoc (f : Message -> Message) (earlier : list Message)
      (m : Message) :
  update_last f (earlier ++ [m]) = earlier ++ [f m].
Proof.
  induction earlier as [|x xs IH]; [reflexivity|].
  simpl. rewrite IH. now destruct xs.
Qed.

Lemma updateLastMessage_snoc (content : JSValue) (c : ChatStore)
      (earlier : list Message) (m : Message) :
  messages c = earlier ++ [m] ->
  updateLastMessage content c
  = set_messages c (earlier ++ [append_content content m]).
Proof.
  intros H. unfold updateLastMessage. rewrite H.
  destruct (earlier ++ [m]) as [|x xs] eqn:E.
  - now destruct earlier.
  - now rewrite <- E, update_last_snoc.
Qed.

(** X10. [updateLastMessage] does nothing to a store without message;
    otherwise it replaces the [content] of the last message by its sum
    with the fragment and keeps the other properties of that message,
    the messages before it, and every other field of the store. *)
Theorem updateLastMessage_last_only :
  forall (content : JSValue) (c : ChatStore),
    (messages c = [] -> updateLastMessage content c = c)
    /\ (forall (earlier : list Message) (m : Message),
           messages c = earlier ++ [m] ->
           exists m',
             messages (updateLastMessage content c) = earlier ++ [m']
             /\ JS.lookup "content" m'
                = plus (JS.lookup "content" m) content
             /\ forall k, String.eqb k "content" = false ->
                          JS.lookup k m' = JS.lookup k m)
    /\ length (messages (updateLastMessage content c)) = length (messages c)
    /\ streaming (updateLastMessage content c) = streaming c
    /\ loading (updateLastMessage content c) = loading c
    /\ error (updateLastMessage content c) = error c
    /\ conversations (updateLastMessage content c) = conversations c
    /\ currentConversation (updateLastMessage content c)
       = currentConversation c.
Proof.
  intros content c. split; [|split].
  - intros H. unfold updateLastMessage. now rewrite H.
  - intros earlier m H. exists (append_content content m).
    rewrite (updateLastMessage_snoc content c earlier m H).
    split; [reflexivity|]. unfold append_content. split.
    + apply lookup_set_same.
    + intros k Hk. now apply lookup_set_other.
  - destruct (messages c) as [|m ms] eqn:E.
    + assert (Hc : updateLastMessage content c = c)
        by (unfold updateLastMessage; now rewrite E).
      rewrite Hc, E. now repeat split.
    + assert (Hne : m :: ms <> []) by discriminate.
      destruct (exists_last Hne) as (earlier & x & Hx).
      rewrite Hx in E. rewrite (updateLastMessage_snoc content c earlier x E).
      simpl. apply (f_equal (@length Message)) in Hx.
      rewrite length_app in *. simpl in *. split; [lia|now repeat split].
Qed.

Lemma append_nil_r (s : string) : (s ++ EmptyString)%string = s.
Proof. induction s; simpl; [reflexivity|now rewrite IHs]. Qed.

(** Fragments accumulate in the last message. *)
Lemma fragments_fold (ds : list string) (c : ChatStore)
      (earlier : list Message) (m : Message) (s0 : string) :
  (forall a b, plus (JStr a) (JStr b) = JStr (a ++ b)) ->
  messages c = earlier ++ [m] ->
  JS.lookup "content" m = JStr s0 ->
  let c' := fold_left (fun c d => updateLastMessage (JStr d) c) ds c in
  messages c' = earlier ++ [JS.set "content" (JStr (s0 ++ joined ds)) m]
  /\ streaming c' = streaming c
  /\ loading c' = loading c.
Proof.
  intros Hplus. revert c m s0.
  induction ds as [|d ds IH]; intros c m s0 Hm Hs; simpl.
  - now rewrite append_nil_r, (set_present _ _ _ Hs).
  - pose proof (updateLastMessage_snoc (JStr d) c earlier m Hm) as E.
    unfold append_content in E. rewrite Hs, Hplus in E.
    destruct (IH (updateLastMessage (JStr d) c)
                 (JS.set "content" (JStr (s0 ++ d)) m) (s0 ++ d)%string)
      as (H1 & H2 & H3).
    + now rewrite E.
    + apply lookup_set_same.
    + rewrite H1, H2, H3, set_set, E, append_assoc. now repeat split.
Qed.

(** X11. When [+] concatenates strings: string fragments passed to
    [updateLastMessage] one after the other end up, in that order, after
    the text the last message had; the other messages and the flags
    stay. *)
Theorem fragments_accumulate :
  forall (ds : list string) (c : ChatStore) (earlier : list Message)
         (m : Message) (s0 : string),
    (forall a b, plus (JStr a) (JStr b) = JStr (a ++ b)) ->
    messages c = earlier ++ [m] ->
    JS.lookup "content" m = JStr s0 ->
    let c' := fold_left (fun c d => updateLastMessage (JStr d) c) ds c in
    messages c' = earlier ++ [JS.set "content" (JStr (s0 ++ joined ds)) m]
    /\ JS.lookup "content" (last (messages c') []) = JStr (s0 ++ joined ds)
    /\ streaming c' = streaming c
    /\ loading c' = loading c.
Proof.
  intros ds c earlier m s0 Hplus Hm Hs c'.
  destruct (fragments_fold ds c earlier m s0 Hplus Hm Hs) as (H1 & H2 & H3).
  fold c' in H1, H2, H3. repeat split; try assumption.
  rewrite H1, last_last. apply lookup_set_same.
Qed.

(** ** The page and its callbacks *)

Lemma requests_app (a b : list PageEffect) :
  requests (a ++ b) = requests a ++ requests b.
Proof.
  induction a as [|e a IH]; simpl; [reflexivity|].
  destruct e; simpl; now rewrite IH.
Qed.

Lemma requests_service (es : list Effect) : requests (map FromService es) = [].
Proof. induction es; simpl; auto. Qed.

Lemma react_app (cb : Callback -> Page -> Page * list PageEffect)
      (a b : list Effect) (p : Page) :
  react cb (a ++ b) p
  = let '(p1, o1) := react cb a p in
    let '(p2, o2) := react cb b p1 in (p2, o1 ++ o2).
Proof.
  revert p. induction a as [|e a IH]; intros p; simpl.
  - now destruct (react cb b p).
  - destruct (match e with Call c => cb c p | _ => (p, []) end) as [p1 o1].
    rewrite IH. destruct (react cb a p1) as [p2 o2].
    destruct (react cb b p2) as [p3 o3].
    simpl. now rewrite app_assoc.
Qed.

Lemma react_no_calls (cb : Callback -> Page -> Page * list PageEffect)
      (es : list Effect) (p : Page) :
  calls es = [] -> react cb es p = (p, map FromService es).
Proof.
  induction es as [|e es IH]; intros H; simpl; [reflexivity|].
  destruct e; try discriminate; simpl in H; now rewrite (IH H).
Qed.

(** What the page is after the effects depends on the callbacks alone. *)
Lemma react_calls (cb : Callback -> Page -> Page * list PageEffect)
      (es : list Effect) (p : Page) :
  fst (react cb es p) = fold_left (fun p c => fst (cb c p)) (calls es) p
  /\ requests (snd (react cb es p))
     = requests (snd (react cb (map Call (calls es)) p)).
Proof.
  revert p. induction es as [|e es IH]; intros p; simpl; [now split|].
  destruct e as [c| | | | | | |]; simpl;
    try (specialize (IH p); destruct (react cb es p) as [p2 o2];
         destruct (react cb (map Call (calls es)) p); simpl in *; exact IH).
  destruct (cb c p) as [p1 o1]. specialize (IH p1).
  destruct (react cb es p1) as [p2 o2].
  destruct (react cb (map Call (calls es)) p1) as [p3 o3].
  simpl in *. destruct IH as [-> E]. split; [reflexivity|].
  now rewrite !requests_app, E.
Qed.

Lemma with_chat_fold (cb : Callback -> Page -> Page * list PageEffect)
      (ds : list string) (p : Page) :
  (forall d q, cb (OnMessage (JStr d)) q
               = ({| chat := updateLastMessage (JStr d) (chat q);
                     service := service q |}, [])) ->
  react cb (map Call (map (fun d => OnMessage (JStr d)) ds)) p
  = ({| chat := fold_left (fun c d => updateLastMessage (JStr d) c) ds (chat p);
        service := service p |},
     map FromService (map Call (map (fun d => OnMessage (JStr d)) ds))).
Proof.
  intros Hcb. revert p. induction ds as [|d ds IH]; intros p; simpl.
  - now destruct p.
  - rewrite Hcb, IH. reflexivity.
Qed.

(** X12. When [+] concatenates strings and the response is a success
    whose body is valid content lines and then a [done] line, in chunks
    of whole lines: after [handleSend] the store holds the user's
    message and, last, the assistant's message whose content is the
    fragments put end to end in arrival order; the streaming flag is
    off, the list of conversations is being reloaded (one request), and
    no socket was opened. *)
Theorem handleSend_delivers :
  forall (text : string) (contents : list string) (final : string)
         (groups : list (list string)) (rest : list string)
         (ending : Ending) (status : Z) (k : SocketOutcome) (p : Page),
    (forall a b, plus (JStr a) (JStr b) = JStr (a ++ b)) ->
    response_ok status = true ->
    Forall2 valid_line (concat groups) (map Content contents ++ [Done final]) ->
    let w := service p in
    let '(p1, out) :=
      handleSend_stream text
        (Response status (map Text.frame groups ++ rest) ending) k p in
    messages (chat p1)
    = messages (chat p)
      ++ [user_message text (toISOString (clock_reads w));
          [("role", JStr "assistant");
           ("content", JStr (joined contents));
           ("created_at", JStr (toISOString (S (clock_reads w))))]]
    /\ streaming (chat p1) = false
    /\ loading (chat p1) = true
    /\ requests out = ["/api/conversations/"]
    /\ websocket (this (service p1)) = websocket (this w)
    /\ sockets (service p1) = sockets w.
Proof.
  intros text contents final groups rest ending status k p Hplus Hok Hv w.
  unfold handleSend_stream. fold w.
  set (w0 := {| this := this w; clock_reads := S (S (clock_reads w));
                sockets := sockets w |}).
  set (c0 := setStreaming true _).
  pose proof (startSSEStream_keeps
                (Response status (map Text.frame groups ++ rest) ending) w0) as K.
  assert (Hc : calls (snd (startSSEStream
                 (Response status (map Text.frame groups ++ rest) ending) w0))
               = map (fun d => OnMessage (JStr d)) contents
                 ++ [OnComplete (JStr final)]).
  { unfold startSSEStream. rewrite Hok. simpl negb. cbv iota.
    rewrite read_loop_frames by (eapply valid_lines_no_LF; exact Hv).
    destruct (sse_lines_done _ _ _ w0 Hv) as (w1 & es & -> & Hc). exact Hc. }
  destruct (startSSEStream _ w0) as [w1 es]. simpl in Hc.
  destruct K as (Hs & Hk & _ & _).
  destruct (react_calls (sse_callback k) es {| chat := c0; service := w1 |})
    as [_ Hreq].
  pose proof (react_calls (sse_callback k) es {| chat := c0; service := w1 |})
    as [Hfst _].
  assert (R : react (sse_callback k) (map Call (calls es))
                    {| chat := c0; service := w1 |}
              = ({| chat := loadConversations_start
                              (setStreaming false
                                 (fold_left
                                    (fun c d => updateLastMessage (JStr d) c)
                                    contents c0));
                    service := w1 |},
                 map FromService
                     (map Call (map (fun d => OnMessage (JStr d)) contents))
                 ++ [FromService (Call (OnComplete (JStr final)));
                     ApiGet "/api/conversations/"])).
  { rewrite Hc, map_app, react_app.
    rewrite (with_chat_fold (sse_callback k) contents _ (fun d q => eq_refl)).
    reflexivity. }
  assert (Hp1 : fst (react (sse_callback k) es {| chat := c0; service := w1 |})
                = fst (react (sse_callback k) (map Call (calls es))
                             {| chat := c0; service := w1 |})).
  { rewrite Hfst.
    destruct (react_calls (sse_callback k) (map Call (calls es))
                          {| chat := c0; service := w1 |}) as [-> _].
    f_equal. clear. induction (calls es); simpl; [reflexivity|now f_equal]. }
  rewrite R in Hreq, Hp1.
  destruct (react (sse_callback k) es _) as [p1 out]. simpl in Hreq, Hp1.
  subst p1. simpl.
  destruct (fragments_fold contents c0
              (messages (chat p)
               ++ [user_message text (toISOString (clock_reads w))])
              (assistant_message (toISOString (S (clock_reads w))))
              EmptyString Hplus) as (H1 & H2 & H3).
  { subst c0. simpl. now rewrite <- app_assoc. }
  { reflexivity. }
  rewrite H1. unfold session_of in Hs. inversion Hs as [[E1 E2 E3 E4 E5]].
  split; [now rewrite <- app_assoc|]. split; [reflexivity|].
  split; [reflexivity|]. split.
  - rewrite Hreq, requests_app, requests_service. reflexivity.
  - split; [first [exact E2|reflexivity]|first [exact Hk|reflexivity]].
Qed.

Lemma react_fragments (cb : Callback -> Page -> Page * list PageEffect)
      (ms : list JSValue) (p : Page) :
  (forall v q, cb (OnMessage v) q
               = ({| chat := updateLastMessage v (chat q);
                     service := service q |}, [])) ->
  react cb (map Call (map OnMessage ms)) p
  = ({| chat := fold_left (fun c v => updateLastMessage v c) ms (chat p);
        service := service p |},
     map FromService (map Call (map OnMessage ms))).
Proof.
  intros Hcb. revert p. induction ms as [|v ms IH]; intros p; simpl.
  - now destruct p.
  - rewrite Hcb, IH. reflexivity.
Qed.

Lemma updateLastMessage_keeps (v : JSValue) (c : ChatStore) :
  length (messages (updateLastMessage v c)) = length (messages c)
  /\ streaming (updateLastMessage v c) = streaming c
  /\ loading (updateLastMessage v c) = loading c.
Proof.
  destruct (messages c) as [|m ms] eqn:E.
  - unfold updateLastMessage. rewrite E. now rewrite E.
  - assert (Hne : m :: ms <> []) by discriminate.
    destruct (exists_last Hne) as (earlier & x & Hx). rewrite Hx in E.
    rewrite (updateLastMessage_snoc v c earlier x E). simpl.
    apply (f_equal (@length Message)) in Hx.
    rewrite length_app in *. simpl in *. split; [lia|now split].
Qed.

Lemma fold_update_keeps (ms : list JSValue) (c : ChatStore) :
  let c' := fold_left (fun c v => updateLastMessage v c) ms c in
  length (messages c') = length (messages c)
  /\ streaming c' = streaming c
  /\ loading c' = loading c.
Proof.
  revert c. induction ms as [|v ms IH]; intros c; simpl; [now repeat split|].
  destruct (IH (updateLastMessage v c)) as (-> & -> & ->).
  apply updateLastMessage_keeps.
Qed.

(** X13. Unless reading the token throws, [handleSend] ends with the
    streaming flag off and two messages more, whatever the host
    answers.  If the stream reported no error, the service is as the
    stream left it and the conversations are being reloaded; if it
    reported one, the page has started the WebSocket stream on the same
    instance and reloads nothing. *)
Theorem handleSend_settles :
  forall (text : string) (h : FetchOutcome) (k : SocketOutcome) (p : Page),
    h <> StorageThrows ->
    let w0 := {| this := this (service p);
                 clock_reads := S (S (clock_reads (service p)));
                 sockets := sockets (service p) |} in
    let sse := startSSEStream h w0 in
    let '(p1, out) := handleSend_stream text h k p in
    streaming (chat p1) = false
    /\ length (messages (chat p1)) = length (messages (chat p)) + 2
    /\ match failed (calls (snd sse)) with
       | [] =>
           service p1 = fst sse
           /\ loading (chat p1) = true
           /\ requests out = ["/api/conversations/"]
       | _ :: _ =>
           service p1 = fst (startWebSocketStream k (fst sse))
           /\ loading (chat p1) = loading (chat p)
           /\ requests out = []
       end.
Proof.
  intros text h k p Hh w0 sse. unfold handleSend_stream. fold w0. fold sse.
  set (c0 := setStreaming true _).
  destruct (startSSEStream_calls h w0 Hh) as (ms & v & Hc). fold sse in Hc.
  destruct sse as [w1 es]. simpl in Hc. simpl fst. simpl snd.
  pose proof (react_calls (sse_callback k) es {| chat := c0; service := w1 |})
    as [Hfst Hreq].
  assert (Hp1 : fst (react (sse_callback k) es {| chat := c0; service := w1 |})
                = fst (react (sse_callback k) (map Call (calls es))
                             {| chat := c0; service := w1 |})).
  { rewrite Hfst.
    destruct (react_calls (sse_callback k) (map Call (calls es))
                          {| chat := c0; service := w1 |}) as [-> _].
    f_equal. clear. induction (calls es); simpl; [reflexivity|now f_equal]. }
  destruct (react (sse_callback k) es _) as [p1 out]. simpl in Hp1, Hreq.
  subst p1. rewrite Hreq. clear Hreq Hfst.
  pose proof (fold_update_keeps ms c0) as (Hl & Hs & Hld).
  assert (Hlen : length (messages c0) = length (messages (chat p)) + 2).
  { subst c0. simpl. rewrite !length_app. simpl. lia. }
  destruct Hc as [-> | ->];
    rewrite failed_app, map_app, react_app,
      (react_fragments (sse_callback k) ms _ (fun v q => eq_refl));
    destruct (messages_only ms) as (_ & -> & _); simpl.
  - rewrite ?requests_app, ?requests_service, ?Hl, ?Hld. now repeat split.
  - destruct k; simpl;
      rewrite ?requests_app, ?requests_service, ?Hl, ?Hld; now repeat split.
Qed.

(** X14. When the stream cannot start ([fetch] rejects, or the status
    is not a success) and the socket can be built: after [handleSend]
    the store holds the user's message and an assistant's message with
    empty content, the streaming flag is off, the service holds a new
    socket and an untouched buffer, and nothing is reloaded. *)
Theorem handleSend_falls_back :
  forall (text : string) (h : FetchOutcome) (p : Page),
    refused h = true ->
    let w := service p in
    let '(p1, out) := handleSend_stream text h WsCreated p in
    messages (chat p1)
    = messages (chat p)
      ++ [user_message text (toISOString (clock_reads w));
          assistant_message (toISOString (S (clock_reads w)))]
    /\ streaming (chat p1) = false
    /\ websocket (this (service p1)) = Some (sockets w)
    /\ sockets (service p1) = S (sockets w)
    /\ buffer (this (service p1)) = buffer (this w)
    /\ requests out = [].
Proof.
  intros text h p Hr w. unfold handleSend_stream. fold w.
  destruct h as [|m|status chunks ending]; simpl in Hr; [discriminate| |].
  - simpl. rewrite <- app_assoc. now repeat split.
  - unfold startSSEStream. rewrite Hr. simpl. rewrite <- app_assoc.
    now repeat split.
Qed.

Lemma page_event_content (frame : string) (v : JSValue) (d : string)
      (p : Page) :
  JSON_parse frame = Some v ->
  decodes v (Content d) ->
  page_event (OpMessage frame) p
  = ({| chat := updateLastMessage (JStr d) (chat p);
        service := addToBuffer v (service p) |},
     [FromService (Call (OnMessage (JStr d)))]).
Proof.
  intros Hv Hd. unfold page_event. simpl.
  now rewrite (ws_onmessage_content frame v d _ Hv Hd).
Qed.

Lemma page_event_done (frame : string) (v : JSValue) (d : string) (p : Page) :
  JSON_parse frame = Some v ->
  decodes v (Done d) ->
  fst (page_event (OpMessage frame) p)
  = {| chat := setStreaming false (chat p);
       service := fst (close (addToBuffer v (service p))) |}
  /\ requests (snd (page_event (OpMessage frame) p)) = [].
Proof.
  intros Hv Hd. unfold page_event. simpl.
  rewrite (ws_onmessage_done frame v d _ Hv Hd). simpl.
  rewrite react_no_calls.
  - simpl. now rewrite requests_service.
  - rewrite close_effects.
    destruct (eventSource _), (websocket _); reflexivity.
Qed.

Lemma page_events_contents (frames : list string) (ds : list string)
      (p : Page) :
  Forall2 valid_frame frames (map Content ds) ->
  exists w out,
    page_events (map OpMessage frames) p
    = ({| chat := fold_left (fun c d => updateLastMessage (JStr d) c) ds (chat p);
          service := w |}, out)
    /\ requests out = []
    /\ exists vs, w = append_all vs (service p).
Proof.
  revert frames p. induction ds as [|d ds IH]; intros frames p H.
  - inversion H; subst. exists (service p), []. destruct p.
    repeat split. now exists [].
  - inversion H as [|fr e frs es' (v & Hv & Hd) Hfrs]; subst. simpl.
    rewrite (page_event_content fr v d p Hv Hd).
    destruct (IH frs {| chat := updateLastMessage (JStr d) (chat p);
                        service := addToBuffer v (service p) |} Hfrs)
      as (w & out & -> & Hreq & vs & Hw).
    exists w, (FromService (Call (OnMessage (JStr d))) :: out).
    repeat split; [exact Hreq|]. exists (v :: vs). exact Hw.
Qed.

Lemma page_events_app (a b : list Op) (p : Page) :
  page_events (a ++ b) p
  = let '(p1, o1) := page_events a p in
    let '(p2, o2) := page_events b p1 in (p2, o1 ++ o2).
Proof.
  revert p. induction a as [|o a IH]; intros p; simpl.
  - now destruct (page_events b p).
  - destruct (page_event o p) as [p1 o1]. rewrite IH.
    destruct (page_events a p1) as [p2 o2].
    destruct (page_events b p2) as [p3 o3]. now rewrite app_assoc.
Qed.

(** X15. When [+] concatenates strings: frames of the socket that are
    valid content events and then a [done] event leave, in the last
    message of the store, the fragments put end to end after the text
    it had; the other messages stay, the streaming flag is off, the
    socket handle is null and nothing is reloaded. *)
Theorem page_socket_stream :
  forall (contents : list string) (final : string) (frames : list string)
         (p : Page) (earlier : list Message) (m : Message) (s0 : string),
    (forall a b, plus (JStr a) (JStr b) = JStr (a ++ b)) ->
    Forall2 valid_frame frames (map Content contents ++ [Done final]) ->
    messages (chat p) = earlier ++ [m] ->
    JS.lookup "content" m = JStr s0 ->
    let '(p1, out) := page_events (map OpMessage frames) p in
    messages (chat p1)
    = earlier ++ [JS.set "content" (JStr (s0 ++ joined contents)) m]
    /\ streaming (chat p1) = false
    /\ loading (chat p1) = loading (chat p)
    /\ websocket (this (service p1)) = None
    /\ requests out = [].
Proof.
  intros contents final frames p earlier m s0 Hplus H Hm Hs.
  apply Forall2_app_inv_r in H as (f1 & f2 & H1 & H2 & ->).
  inversion H2 as [|fr e frs es' (v & Hv & Hd) Hfrs]; subst.
  inversion Hfrs; subst.
  rewrite map_app, page_events_app.
  destruct (page_events_contents f1 contents p H1)
    as (w & out & -> & Hreq & _).
  simpl.
  destruct (page_event_done fr v final
              {| chat := fold_left (fun c d => updateLastMessage (JStr d) c)
                                   contents (chat p);
                 service := w |} Hv Hd) as [Hp Hr].
  destruct (page_event (OpMessage fr) _) as [p1 o1]. simpl in Hp, Hr.
  subst p1. simpl.
  destruct (fragments_fold contents (chat p) earlier m s0 Hplus Hm Hs)
    as (F1 & F2 & F3).
  destruct (close_result (addToBuffer v w)) as (_ & Hw & _).
  rewrite !requests_app, Hreq, Hr.
  repeat split; assumption.
Qed.

End Host.

(** ** Reading the recent entries *)

(** The last [k] elements of a list, oldest first. *)
Lemma slice_from_negative {A : Type} (k : Z) (l : list A) :
  (1 <= k)%Z ->
  slice_from (- k) l = skipn (length l - Z.to_nat k) l.
Proof.
  intros H. unfold slice_from.
  destruct (Z.ltb_spec (- k) 0); [|lia]. f_equal. lia.
Qed.

(** For a count of one or more: the last [n] entries, oldest first, and
    all of them when the buffer holds no more than [n]. *)
Lemma getRecentBuffer_positive (n : Z) (s : Service) :
  (1 <= n)%Z ->
  getRecentBuffer (Some n) s
  = skipn (length (buffer s) - Z.to_nat n) (buffer s)
  /\ ((Z.of_nat (length (buffer s)) <= n)%Z ->
      getRecentBuffer (Some n) s = buffer s).
Proof.
  intros H. unfold getRecentBuffer. rewrite slice_from_negative by exact H.
  split; [reflexivity|]. intros Hl.
  replace (length (buffer s) - Z.to_nat n) with 0 by lia. reflexivity.
Qed.

(** Without argument: the last ten. *)
Lemma getRecentBuffer_default (s : Service) :
  getRecentBuffer None s = skipn (length (buffer s) - 10) (buffer s).
Proof.
  unfold getRecentBuffer. now rewrite slice_from_negative by lia.
Qed.

(** C9. [getRecentBuffer(0)] returns every buffered entry, whatever the
    buffer holds, where the last 0 entries are none: with three entries
    buffered it returns the three. *)
Theorem getRecentBuffer_zero_returns_all :
  (forall s : Service, getRecentBuffer (Some 0%Z) s = buffer s)
  /\ (let e1 := mkBuffered (JStr "a") "t1" in
      let e2 := mkBuffered (JStr "b") "t2" in
      let e3 := mkBuffered (JStr "c") "t3" in
      let s := set_buffer constructor [e1; e2; e3] in
      getRecentBuffer (Some 0%Z) s = [e1; e2; e3]
      /\ getRecentBuffer (Some 0%Z) s <> []
      /\ getRecentBuffer (Some 5%Z) s = [e1; e2; e3]
      /\ getRecentBuffer (Some 2%Z) s = [e2; e3]).
Proof.
  split.
  - intros s. unfold getRecentBuffer, slice_from. simpl.
    now rewrite Z.min_l by lia.
  - simpl. repeat split. discriminate.
Qed.

(** ** The scenarios, evaluated *)

(** The scenario of the specification, each line in a chunk of its own:
    two fragments, the completion, three entries buffered. *)
Example scenario_run :
  let '(w, es) :=
    startSSEStream JSON.parse example_clock
      (Response 200 (map (fun l => Text.frame [l]) scenario) EndOfStream)
      initial in
  calls es = [OnMessage (JStr "Hel"); OnMessage (JStr "lo");
              OnComplete (JStr EmptyString)]
  /\ map spread (buffer (this w))
     = [JObj [("type", JStr "content"); ("data", JStr "Hel")];
        JObj [("type", JStr "content"); ("data", JStr "lo")];
        JObj [("type", JStr "done"); ("data", JStr EmptyString)]].
Proof. vm_compute. split; reflexivity. Qed.

(** The three lines of the scenario are valid lines of its events. *)
Lemma scenario_valid :
  Forall2 (valid_line JSON.parse) scenario
          (map Content ["Hel"; "lo"] ++ [Done EmptyString]).
Proof.
  repeat constructor; try reflexivity; eexists; (split; [reflexivity|]);
    split; reflexivity.
Defined.


(** C2 at a body of two fragments and a truncated line, without [done]. *)
Lemma sse_implicit_completion_witness :
  let chunks := [Text.frame [sse (content_json "Hel")];
                 sse (q "{'type':'cont"); Text.frame [sse (content_json "lo")]] in
  Forall (fun c => Forall (fun l => terminal JSON.parse l = false)
                          (Text.split_lines c)) chunks
  /\ completed (calls (snd (startSSEStream JSON.parse example_clock
                              (Response 200 chunks EndOfStream) initial)))
     = [JStr EmptyString].
Proof.
  intros chunks.
  assert (H : Forall (fun c => Forall (fun l => terminal JSON.parse l = false)
                                      (Text.split_lines c)) chunks)
    by (repeat constructor).
  split; [exact H|].
  apply (sse_implicit_completion JSON.parse example_clock chunks 200%Z initial
           eq_refl H).
Defined.

(** C3, refuted. The text of the scenario, once in one chunk and once
    cut inside its first line: the first fragment is lost from the
    callbacks and from the buffer. *)
Lemma chunking_changes_events :
  let whole := [Text.frame scenario] in
  let cut := [sse (q "{'type':'content','da");
              (q "ta':'Hel'}" ++ String Text.LF (Text.frame (tl scenario)))%string] in
  let run_on chunks :=
    startSSEStream JSON.parse example_clock
                   (Response 200 chunks EndOfStream) initial in
  Text.body_text cut = Text.body_text whole
  /\ calls (snd (run_on whole))
     = [OnMessage (JStr "Hel"); OnMessage (JStr "lo");
        OnComplete (JStr EmptyString)]
  /\ calls (snd (run_on cut))
     = [OnMessage (JStr "lo"); OnComplete (JStr EmptyString)]
  /\ length (buffer (this (fst (run_on whole)))) = 3
  /\ length (buffer (this (fst (run_on cut)))) = 2
  /\ run_on cut <> run_on whole.
Proof.
  vm_compute. repeat split. discriminate.
Qed.

(** C3, amended, at two cuts of the scenario on line boundaries. *)
Lemma sse_line_aligned_chunking_witness :
  let cs1 := [Text.frame [sse (content_json "Hel")];
              Text.frame [sse (content_json "lo"); sse (done_json EmptyString)]] in
  let cs2 := [Text.frame [sse (content_json "Hel"); sse (content_json "lo")];
              EmptyString; Text.frame [sse (done_json EmptyString)]] in
  Forall (fun c => Text.line_aligned c = true) cs1
  /\ Forall (fun c => Text.line_aligned c = true) cs2
  /\ Text.body_text cs1 = Text.body_text cs2
  /\ startSSEStream JSON.parse example_clock (Response 200 cs1 EndOfStream) initial
     = startSSEStream JSON.parse example_clock (Response 200 cs2 EndOfStream) initial.
Proof.
  intros cs1 cs2.
  assert (H1 : Forall (fun c => Text.line_aligned c = true) cs1)
    by (repeat constructor).
  assert (H2 : Forall (fun c => Text.line_aligned c = true) cs2)
    by (repeat constructor).
  assert (E : Text.body_text cs1 = Text.body_text cs2) by reflexivity.
  split; [exact H1|]. split; [exact H2|]. split; [exact E|].
  apply (sse_line_aligned_chunking JSON.parse example_clock cs1 cs2 200%Z
           EndOfStream initial H1 H2 E).
Defined.

(** C7 at status 500. *)
Lemma sse_http_error_witness :
  response_ok 500 = false
  /\ calls (snd (startSSEStream JSON.parse example_clock
                   (Response 500 scenario EndOfStream) initial))
     = [OnError (JStr "HTTP error! status: 500")]
  /\ fst (startSSEStream JSON.parse example_clock
            (Response 500 scenario EndOfStream) initial) = initial.
Proof.
  split; [reflexivity|].
  pose proof (sse_http_error JSON.parse example_clock 500%Z scenario
                EndOfStream initial eq_refl) as H.
  destruct (startSSEStream JSON.parse example_clock
              (Response 500 scenario EndOfStream) initial) as [w es].
  destruct H as (Hw & Hc & _). split; [exact Hc|exact Hw].
Defined.

(** The events of the family are distinct. *)
Lemma marks_injective (a b : nat) : marks a = marks b -> a = b.
Proof.
  revert b. induction a as [|a IH]; intros [|b] H; simpl in H;
    try discriminate; [reflexivity|].
  inversion H as [E]. now rewrite (IH b E).
Qed.

Lemma samples_distinct (n k : nat) : NoDup (map sample (seq k n)).
Proof.
  revert k. induction n as [|n IH]; intros k; simpl; constructor.
  - intros Hin. apply in_map_iff in Hin as (j & Hj & Hin).
    apply in_seq in Hin. inversion Hj as [E].
    apply marks_injective in E. lia.
  - apply IH.
Qed.

(** C4 at 1001 events of the family, appended to a new instance. *)
Lemma buffer_bounded_fifo_witness :
  let others := map sample (seq 1 1000) in
  let b := buffer (this (append_all example_clock (sample 0 :: others) initial)) in
  length others = 1000
  /\ NoDup (sample 0 :: others)
  /\ map spread b = others
  /\ ~ In (sample 0) (map spread b).
Proof.
  intros others b.
  assert (Hl : length others = 1000)
    by (unfold others; now rewrite length_map, length_seq).
  assert (Hn : NoDup (sample 0 :: others)) by exact (samples_distinct 1001 0).
  assert (Hb : (length (buffer (this initial)) <= 1000)%nat) by (simpl; lia).
  destruct (proj2 (proj2 (proj2 (buffer_bounded_fifo JSON.parse example_clock)))
              initial (sample 0) others eq_refl Hb Hl Hn) as (_ & Hs & Hni & _).
  split; [exact Hl|]. split; [exact Hn|]. split; [exact Hs|exact Hni].
Defined.

(** C5 at a new instance: the first close event, and seven in a row. *)
Lemma reconnect_backoff_witness :
  maxReconnectAttempts (this initial) = 5%Z
  /\ reconnectAttempts (this initial) = (1 - 1)%Z
  /\ (1 <= 1 <= 5)%Z
  /\ forallb (fun o => negb (resets o)) (repeat OpClosed 7) = true
  /\ timers (snd (ws_onclose initial)) = [2000%Z]
  /\ timers (snd (run JSON.parse example_clock (repeat OpClosed 7) initial))
     = [2000; 4000; 8000; 16000; 16000]%Z.
Proof.
  assert (Hk : (1 <= 1 <= 5)%Z) by lia.
  pose proof (proj1 (reconnect_backoff JSON.parse example_clock)
                initial 1%Z eq_refl eq_refl Hk) as H1.
  pose proof (proj1 (proj2 (proj2 (proj2
                (reconnect_backoff JSON.parse example_clock))))
                (repeat OpClosed 7) eq_refl) as H4.
  destruct (ws_onclose initial) as [w es]. destruct H1 as (_ & Ht & _).
  split; [reflexivity|]. split; [reflexivity|]. split; [exact Hk|].
  split; [reflexivity|]. split; [exact Ht|exact H4].
Defined.


(** C6. On the socket an [error] event calls [onError] and leaves the
    session as it was: the socket stays assigned, the frames that follow
    are dispatched, a second [error] calls [onError] again, and a close
    event then sets a reconnect timer whose body re-invokes the WebSocket
    start.  A [done] event tears the session down, and the SSE reader
    stops at the first [error] of the same events. *)
Theorem ws_error_not_terminal :
  let frames := [error_json "boom"; content_json "late"; error_json "again"] in
  let opened :=
    fst (run JSON.parse example_clock [OpStartWS WsCreated; OpOpen] initial) in
  let after_error :=
    ws_onmessage JSON.parse example_clock (error_json "boom") opened in
  let after_done :=
    ws_onmessage JSON.parse example_clock (done_json "bye") opened in
  let closed := ws_onclose (fst after_error) in
  websocket (this opened) = Some 0
  /\ calls (snd after_error) = [OnError (JStr "boom")]
  /\ websocket (this (fst after_error)) = Some 0
  /\ snd after_done = [Call (OnComplete (JStr "bye")); WsClose 0]
  /\ websocket (this (fst after_done)) = None
  /\ calls (snd (run JSON.parse example_clock (map OpMessage frames) opened))
     = [OnError (JStr "boom"); OnMessage (JStr "late"); OnError (JStr "again")]
  /\ calls (snd (startSSEStream JSON.parse example_clock
                   (Response 200 [Text.frame (map sse frames)] EndOfStream)
                   initial))
     = [OnError (JStr "boom")]
  /\ timers (snd closed) = [2000%Z]
  /\ reconnect_timer (this (fst closed)) = RestartWS.
Proof.
  vm_compute. repeat split.
Qed.

(** ** Any count *)

(** X16. For every argument, integer or absent, [getRecentBuffer]
    returns a suffix of the buffer, in buffer order: of [min(n, length)]
    entries for a count [n] of one or more (ten when absent), and the
    buffer without its first [min(-n, length)] entries for a count of
    zero or less. *)
Theorem getRecentBuffer_any_count :
  forall (n : option Z) (s : Service),
    let k := match n with Some k => k | None => 10%Z end in
    let len := Z.of_nat (length (buffer s)) in
    (exists older, buffer s = older ++ getRecentBuffer n s)
    /\ Z.of_nat (length (getRecentBuffer n s))
       = if (1 <=? k)%Z then Z.min k len else (len - Z.min (- k) len)%Z.
Proof.
  intros n s k len. unfold getRecentBuffer, slice_from. fold k. fold len.
  set (j := Z.to_nat _). split.
  - exists (firstn j (buffer s)). now rewrite firstn_skipn.
  - rewrite length_skipn. subst j.
    destruct (Z.ltb_spec (- k) 0), (Z.leb_spec 1 k); subst len; lia.
Qed.

(** ** Further scenarios, evaluated *)

(** X2 at an instance with a socket, closed, then three close events
    and timers. *)
Lemma close_ends_reconnecting_witness :
  let w := fst (run JSON.parse example_clock [OpStartWS WsCreated; OpOpen] initial) in
  let later := [OpClosed; OpTimer StorageThrows WsCreated; OpClosed] in
  forallb close_or_timer later = true
  /\ calls (snd (run JSON.parse example_clock later (fst (close w)))) = []
  /\ websocket (this (fst (run JSON.parse example_clock later (fst (close w)))))
     = None.
Proof.
  intros w later.
  pose proof (close_ends_reconnecting JSON.parse example_clock later w eq_refl)
    as H.
  cbv zeta in H.
  destruct (run JSON.parse example_clock later (fst (close w))) as [w1 es].
  destruct H as (H1 & _ & _ & H4 & _).
  split; [reflexivity|]. split; [exact H1|exact H4].
Defined.

(** X3 at a response of status 500. *)
Lemma sse_one_terminal_callback_witness :
  Response 500 scenario EndOfStream <> StorageThrows
  /\ length (completed (calls (snd (startSSEStream JSON.parse example_clock
                                      (Response 500 scenario EndOfStream)
                                      initial))))
     + length (failed (calls (snd (startSSEStream JSON.parse example_clock
                                     (Response 500 scenario EndOfStream)
                                     initial))))
     = 1.
Proof.
  assert (H : Response 500 scenario EndOfStream <> StorageThrows)
    by discriminate.
  split; [exact H|].
  apply (sse_one_terminal_callback JSON.parse example_clock
           (Response 500 scenario EndOfStream) initial H).
Defined.

(** The lines of a fragment and an error are valid lines of their
    events. *)
Lemma error_lines_valid :
  Forall2 (valid_line JSON.parse)
          [sse (content_json "Hel"); sse (error_json "boom")]
          (map Content ["Hel"] ++ [Error "boom"]).
Proof.
  repeat constructor; try reflexivity; eexists; (split; [reflexivity|]);
    split; reflexivity.
Defined.

(** X4 at a fragment, an error, and a line that is never read. *)
Lemma sse_error_event_terminal_witness :
  response_ok 200 = true
  /\ Forall2 (valid_line JSON.parse)
             (concat [[sse (content_json "Hel"); sse (error_json "boom")]])
             (map Content ["Hel"] ++ [Error "boom"])
  /\ calls (snd (startSSEStream JSON.parse example_clock
                   (Response 200
                      (map Text.frame [[sse (content_json "Hel");
                                        sse (error_json "boom")]]
                       ++ [Text.frame [sse (content_json "late")]])
                      EndOfStream) initial))
     = [OnMessage (JStr "Hel"); OnError (JStr "boom")].
Proof.
  split; [reflexivity|]. split; [exact error_lines_valid|].
  apply (sse_error_event_terminal JSON.parse example_clock ["Hel"] "boom"
           [[sse (content_json "Hel"); sse (error_json "boom")]]
           [Text.frame [sse (content_json "late")]] EndOfStream 200%Z initial
           eq_refl error_lines_valid).
Defined.

(** X5 at a body of one fragment whose next read throws. *)
Lemma sse_read_failure_witness :
  let chunks := [Text.frame [sse (content_json "Hel")]] in
  Forall (fun c => Forall (fun l => terminal JSON.parse l = false)
                          (Text.split_lines c)) chunks
  /\ failed (calls (snd (startSSEStream JSON.parse example_clock
                           (Response 200 chunks (ReadFails "network error"))
                           initial)))
     = [JStr "network error"].
Proof.
  intros chunks.
  assert (H : Forall (fun c => Forall (fun l => terminal JSON.parse l = false)
                                      (Text.split_lines c)) chunks)
    by (repeat constructor).
  split; [exact H|].
  apply (sse_read_failure JSON.parse example_clock chunks "network error"
           200%Z initial eq_refl H).
Defined.

(** X7 at a new instance and the line of [null], for which no callback
    is called. *)
Lemma newest_entry_buffered_witness :
  (1 <= maxBufferSize (this initial))%Z
  /\ Text.startsWith "data: " "data: null" = true
  /\ JSON.parse (Text.drop 6 "data: null") = Some JNull
  /\ getRecentBuffer (Some 1%Z)
       (this (snd (fst (sse_line JSON.parse example_clock "data: null" initial))))
     = [mkBuffered JNull (example_clock 0)].
Proof.
  assert (H : (1 <= maxBufferSize (this initial))%Z) by (simpl; lia).
  split; [exact H|]. split; [reflexivity|]. split; [reflexivity|].
  apply (proj1 (proj2 (newest_entry_buffered JSON.parse example_clock initial H))
               "data: null" JNull eq_refl eq_refl).
Defined.

(** The frames of the scenario are valid frames of its events. *)
Lemma scenario_frames_valid :
  Forall2 (valid_frame JSON.parse)
          [content_json "Hel"; content_json "lo"; done_json EmptyString]
          (map Content ["Hel"; "lo"] ++ [Done EmptyString]).
Proof.
  repeat constructor; eexists; (split; [reflexivity|]); split; reflexivity.
Defined.

(** X8 at the frames of the scenario on an open socket, followed by the
    close event and the timer it sets. *)
Lemma ws_done_stream_witness :
  let w := fst (run JSON.parse example_clock [OpStartWS WsCreated; OpOpen] initial) in
  let frames := [content_json "Hel"; content_json "lo"; done_json EmptyString] in
  let later := [OpClosed; OpTimer StorageThrows WsCreated] in
  Forall2 (valid_frame JSON.parse) frames
          (map Content ["Hel"; "lo"] ++ [Done EmptyString])
  /\ forallb close_or_timer later = true
  /\ calls (snd (run JSON.parse example_clock (map OpMessage frames) w))
     = [OnMessage (JStr "Hel"); OnMessage (JStr "lo");
        OnComplete (JStr EmptyString)]
  /\ socket_ops (snd (run JSON.parse example_clock (map OpMessage frames) w))
     = [WsClose 0].
Proof.
  intros w frames later.
  pose proof (ws_done_stream JSON.parse example_clock ["Hel"; "lo"] EmptyString
                frames later w scenario_frames_valid eq_refl) as H.
  destruct (run JSON.parse example_clock (map OpMessage frames) w) as [w1 es].
  destruct H as (H1 & H2 & _).
  split; [exact scenario_frames_valid|]. split; [reflexivity|].
  split; [exact H1|exact H2].
Defined.

(** X10 at a store of two messages. *)
Lemma updateLastMessage_last_only_witness :
  let c := addMessage (assistant_message "t2")
             (addMessage (user_message "hi" "t1") chat_initial) in
  messages c = [user_message "hi" "t1"] ++ [assistant_message "t2"]
  /\ messages (updateLastMessage example_plus (JStr "Hel") chat_initial) = []
  /\ exists m',
       messages (updateLastMessage example_plus (JStr "Hel") c)
       = [user_message "hi" "t1"] ++ [m']
       /\ JS.lookup "content" m' = JStr "Hel".
Proof.
  intros c. split; [reflexivity|]. split.
  - now rewrite (proj1 (updateLastMessage_last_only example_plus (JStr "Hel")
                          chat_initial) eq_refl).
  - destruct (proj1 (proj2 (updateLastMessage_last_only example_plus
                              (JStr "Hel") c))
                    [user_message "hi" "t1"] (assistant_message "t2") eq_refl)
      as (m' & H1 & H2 & _).
    exists m'. split; [exact H1|exact H2].
Defined.

(** X11 at the two fragments of the scenario. *)
Lemma fragments_accumulate_witness :
  let c := addMessage (assistant_message "t2")
             (addMessage (user_message "hi" "t1") chat_initial) in
  (forall a b, example_plus (JStr a) (JStr b) = JStr (a ++ b))
  /\ messages c = [user_message "hi" "t1"] ++ [assistant_message "t2"]
  /\ JS.lookup "content" (assistant_message "t2") = JStr EmptyString
  /\ JS.lookup "content"
       (last (messages
                (fold_left (fun c d => updateLastMessage example_plus (JStr d) c)
                           ["Hel"; "lo"] c)) [])
     = JStr "Hello".
Proof.
  intros c.
  assert (Hp : forall a b, example_plus (JStr a) (JStr b) = JStr (a ++ b))
    by reflexivity.
  split; [exact Hp|]. split; [reflexivity|]. split; [reflexivity|].
  apply (fragments_accumulate example_plus ["Hel"; "lo"] c
           [user_message "hi" "t1"] (assistant_message "t2") EmptyString
           Hp eq_refl eq_refl).
Defined.

(** X12 at the scenario, sent from a new page. *)
Lemma handleSend_delivers_witness :
  let p := {| chat := chat_initial; service := initial |} in
  let h := Response 200
             (map Text.frame [[sse (content_json "Hel")];
                              [sse (content_json "lo");
                               sse (done_json EmptyString)]] ++ [])
             EndOfStream in
  (forall a b, example_plus (JStr a) (JStr b) = JStr (a ++ b))
  /\ response_ok 200 = true
  /\ messages (chat (fst (handleSend_stream JSON.parse example_clock
                            example_plus "hi" h WsCreated p)))
     = [user_message "hi" (example_clock 0);
        [("role", JStr "assistant"); ("content", JStr "Hello");
         ("created_at", JStr (example_clock 1))]]
  /\ streaming (chat (fst (handleSend_stream JSON.parse example_clock
                             example_plus "hi" h WsCreated p)))
     = false.
Proof.
  intros p h.
  assert (Hp : forall a b, example_plus (JStr a) (JStr b) = JStr (a ++ b))
    by reflexivity.
  pose proof (handleSend_delivers JSON.parse example_clock example_plus
                "hi" ["Hel"; "lo"] EmptyString
                [[sse (content_json "Hel")];
                 [sse (content_json "lo"); sse (done_json EmptyString)]]
                [] EndOfStream 200%Z WsCreated p Hp eq_refl scenario_valid)
    as H.
  cbv zeta in H. fold h in H.
  destruct (handleSend_stream JSON.parse example_clock example_plus "hi" h
                              WsCreated p) as [p1 out].
  destruct H as (H1 & H2 & _).
  split; [exact Hp|]. split; [reflexivity|]. split; [exact H1|exact H2].
Defined.

(** X13 at a response of status 500. *)
Lemma handleSend_settles_witness :
  let p := {| chat := chat_initial; service := initial |} in
  let h := Response 500 [] EndOfStream in
  h <> StorageThrows
  /\ streaming (chat (fst (handleSend_stream JSON.parse example_clock
                             example_plus "hi" h WsCreated p)))
     = false.
Proof.
  intros p h.
  assert (Hh : h <> StorageThrows) by discriminate.
  pose proof (handleSend_settles JSON.parse example_clock example_plus
                "hi" h WsCreated p Hh) as H.
  cbv zeta in H.
  destruct (handleSend_stream JSON.parse example_clock example_plus "hi" h
                              WsCreated p) as [p1 out].
  destruct H as (H1 & _). split; [exact Hh|exact H1].
Defined.

(** X14 at a response of status 500. *)
Lemma handleSend_falls_back_witness :
  let p := {| chat := chat_initial; service := initial |} in
  let h := Response 500 [] EndOfStream in
  refused h = true
  /\ websocket (this (service (fst (handleSend_stream JSON.parse example_clock
                                      example_plus "hi" h WsCreated p))))
     = Some 0.
Proof.
  intros p h.
  pose proof (handleSend_falls_back JSON.parse example_clock example_plus
                "hi" h p eq_refl) as H.
  cbv zeta in H.
  destruct (handleSend_stream JSON.parse example_clock example_plus "hi" h
                              WsCreated p) as [p1 out].
  destruct H as (_ & _ & H3 & _). split; [reflexivity|exact H3].
Defined.

(** X15 at the frames of the scenario, after a fallback. *)
Lemma page_socket_stream_witness :
  let p := fst (handleSend_stream JSON.parse example_clock example_plus "hi"
                  (Response 500 [] EndOfStream) WsCreated
                  {| chat := chat_initial; service := initial |}) in
  let frames := [content_json "Hel"; content_json "lo"; done_json EmptyString] in
  (forall a b, example_plus (JStr a) (JStr b) = JStr (a ++ b))
  /\ messages (chat p)
     = [user_message "hi" (example_clock 0)]
       ++ [assistant_message (example_clock 1)]
  /\ JS.lookup "content"
       (last (messages (chat (fst (page_events JSON.parse example_clock
                                     example_plus (map OpMessage frames) p))))
             [])
     = JStr "Hello".
Proof.
  intros p frames.
  assert (Hp : forall a b, example_plus (JStr a) (JStr b) = JStr (a ++ b))
    by reflexivity.
  pose proof (page_socket_stream JSON.parse example_clock example_plus
                ["Hel"; "lo"] EmptyString frames p
                [user_message "hi" (example_clock 0)]
                (assistant_message (example_clock 1)) EmptyString
                Hp scenario_frames_valid eq_refl eq_refl) as H.
  destruct (page_events JSON.parse example_clock example_plus
                        (map OpMessage frames) p) as [p1 out].
  destruct H as (H1 & _).
  split; [exact Hp|]. split; [reflexivity|].
  simpl fst. rewrite H1. reflexivity.
Defined.

